(** * LEF parser data structures (util.py): statement contexts and their
      [parse_next] transitions

    The Python classes [Statement], [Macro], [Pin], [Port], [Obs],
    [LayerDef] and [Rect] are embedded over an explicit object store.
    Instances are mutable and shared (a [Pin] is both stored in its macro's
    ["PIN"] list and returned to the caller), so every instance lives at a
    location of the store and is referred to by that location.  A method is
    a computation over the store that either returns a value or raises one
    of Python's exceptions. *)

From stdpp Require Import gmap strings list fin_maps.
From Stdlib Require Import ZArith Ascii PrimFloat Uint63.

Set Warnings "-register-all".

Open Scope string_scope.
Open Scope Z_scope.
Open Scope list_scope.

(** ** Values, objects and the store *)

(** Locations of the store.  [loc] and [store] are abbreviations, so that
    the list lemmas apply to them as they are. *)
Abbreviation loc := nat (only parsing).

(** Python's exceptions that the transitions can raise. *)
Inductive exn : Set :=
| IndexError       (* sequence index out of range *)
| KeyError         (* dict key absent *)
| ValueError       (* float() of a string that is no float literal *)
| AttributeError   (* attribute or method absent on the object *)
| TypeError.       (* object is not subscriptable *)

Section Embedding.

(** Python's floats and the builtin [float(str)] are taken as parameters:
    [parse_float x = None] stands for [float(x)] raising [ValueError]. *)
Variable F : Type.
Variable parse_float : string → option F.

(** The values held by the [info] dictionaries.  Lists hold values of any
    kind, as in Python; instances are held by reference. *)
Inductive value : Type :=
| VStr (s : string)
| VFloat (x : F)
| VTuple (l : list value)
| VList (l : list value)
| VRef (r : loc).

(** [Rect]: [self.points = points], the list of two corner tuples built by
    [LayerDef.add_rect] from raw tokens. *)
Record Rect := mkRect { points : list (string * string) }.

(** Attributes of the [Statement] subclasses: [self.type], [self.name],
    [self.info].  The dictionary is kept as a finite map: which keys it
    has and what they hold, not the order in which the keys were first
    set.  [parse_next] never depends on that order; [Macro.__str__], which
    lists the keys in it, is not embedded, and no statement below is about
    the order of keys. *)
Record stmt := mkStmt {
  type : string;
  name : string;
  info : gmap string value
}.

(** Attributes of [LayerDef]: [self.type], [self.name], [self.shapes]. *)
Record layerdef := mkLayerDef {
  l_type : string;
  l_name : string;
  shapes : list Rect
}.

(** An instance: its class and its attributes.  A bare [Statement()] sets
    no attribute. *)
Inductive obj : Type :=
| OStatement
| OMacro (o : stmt)
| OPin (o : stmt)
| OPort (o : stmt)
| OObs (o : stmt)
| OLayerDef (l : layerdef).

Abbreviation store := (list obj) (only parsing).

(** What [parse_next] returns: an integer (0, 1 or -1) or the instance to
    be parsed next. *)
Inductive ret : Type :=
| RInt (n : Z)
| RObj (r : loc).

(** ** Computations: store passing with exceptions *)

Definition py (A : Type) : Type := store → (exn + A) * store.

#[local] Instance py_ret : MRet py := λ A x s, (inr x, s).
#[local] Instance py_bind : MBind py := λ A B f m s,
  match m s with
  | (inl e, s') => (inl e, s')
  | (inr a, s') => f a s'
  end.

Definition raise {A} (e : exn) : py A := λ s, (inl e, s).

(** [data[i]] for a non-negative literal [i]. *)
Definition index (data : list string) (i : nat) : py string :=
  match data !! i with
  | Some x => mret x
  | None => raise IndexError
  end.

(** [float(x)] *)
Definition float (x : string) : py F :=
  match parse_float x with
  | Some f => mret f
  | None => raise ValueError
  end.

(** Instance creation: the new object gets the next free location. *)
Definition alloc (o : obj) : py loc := λ s, (inr (List.length s), s ++ [o]).

Definition stmt_of (o : obj) : option stmt :=
  match o with
  | OMacro st | OPin st | OPort st | OObs st => Some st
  | OStatement | OLayerDef _ => None
  end.

Definition with_info (o : obj) (i : gmap string value) : obj :=
  match o with
  | OMacro st => OMacro (mkStmt (type st) (name st) i)
  | OPin st => OPin (mkStmt (type st) (name st) i)
  | OPort st => OPort (mkStmt (type st) (name st) i)
  | OObs st => OObs (mkStmt (type st) (name st) i)
  | OStatement | OLayerDef _ => o
  end.

(** [self.info] and [self.name]; an object without the attribute (or a
    dangling location, which no allocation produces) gives
    [AttributeError]. *)
Definition get_stmt (self : loc) : py stmt := λ s,
  match s !! self with
  | Some o =>
      match stmt_of o with
      | Some st => (inr st, s)
      | None => (inl AttributeError, s)
      end
  | None => (inl AttributeError, s)
  end.

Definition get_info (self : loc) : py (gmap string value) :=
  st ← get_stmt self; mret (info st).

Definition get_name (self : loc) : py string :=
  st ← get_stmt self; mret (name st).

(** [self.info[k] = v] *)
Definition setitem (self : loc) (k : string) (v : value) : py () := λ s,
  match s !! self with
  | Some o =>
      match stmt_of o with
      | Some st => (inr (), <[self := with_info o (<[k := v]> (info st))]> s)
      | None => (inl AttributeError, s)
      end
  | None => (inl AttributeError, s)
  end.

(** [self.info[k]] *)
Definition getitem (self : loc) (k : string) : py value :=
  i ← get_info self;
  match i !! k with
  | Some v => mret v
  | None => raise KeyError
  end.

(** [k in self.info] *)
Definition contains (self : loc) (k : string) : py bool :=
  i ← get_info self;
  mret (bool_decide (is_Some (i !! k))).

(** [self.info[k].append(x)]: only a list has [append]; the list object is
    reachable through [self.info[k]] alone and is kept by value there. *)
Definition append_item (self : loc) (k : string) (x : value) : py () :=
  v ← getitem self k;
  match v with
  | VList l => setitem self k (VList (l ++ [x]))
  | _ => raise AttributeError
  end.

Fixpoint string_last (s : string) : option string :=
  match s with
  | EmptyString => None
  | String c EmptyString => Some (String c EmptyString)
  | String _ s' => string_last s'
  end.

(** [v[-1]] *)
Definition subscript_last (v : value) : py value :=
  match v with
  | VList l | VTuple l =>
      match last l with
      | Some x => mret x
      | None => raise IndexError
      end
  | VStr s =>
      match string_last s with
      | Some c => mret (VStr c)
      | None => raise IndexError
      end
  | VFloat _ | VRef _ => raise TypeError
  end.

(** ** Constructors *)

Definition Macro (name : string) : py loc :=
  alloc (OMacro (mkStmt "MACRO" name ∅)).

Definition Pin (name : string) : py loc :=
  alloc (OPin (mkStmt "PIN" name ∅)).

Definition Port : py loc :=
  alloc (OPort (mkStmt "PORT" EmptyString ∅)).

Definition Obs : py loc :=
  alloc (OObs (mkStmt "OBS" EmptyString ∅)).

Definition LayerDef (name : string) : py loc :=
  alloc (OLayerDef (mkLayerDef "LayerDef" name [])).

(** ** Methods *)

(** [self.shapes.append(rect)] *)
Definition append_shape (self : loc) (rect : Rect) : py () := λ s,
  match s !! self with
  | Some (OLayerDef l) =>
      (inr (),
       <[self := OLayerDef (mkLayerDef (l_type l) (l_name l) (shapes l ++ [rect]))]> s)
  | _ => (inl AttributeError, s)
  end.

(** [LayerDef.add_rect] *)
Definition add_rect (self : loc) (data : list string) : py () :=
  x0 ← index data 1;
  y0 ← index data 2;
  x1 ← index data 3;
  y1 ← index data 4;
  let points := [(x0, y0); (x1, y1)] in
  let rect := mkRect points in
  append_shape self rect.

(** [v.add_rect(data)]: the method is looked up on the object first; only a
    [LayerDef] has it. *)
Definition call_add_rect (v : value) (data : list string) : py () :=
  match v with
  | VRef r => λ s,
      match s !! r with
      | Some (OLayerDef _) => add_rect r data s
      | _ => (inl AttributeError, s)
      end
  | _ => raise AttributeError
  end.

(** [Statement.parse_next] *)
Definition Statement_parse_next (self : loc) (data : list string) : py ret :=
  d0 ← index data 0;
  if String.eqb d0 "MACRO" then
    name ← index data 1;
    new_state ← Macro name;
    mret (RObj new_state)
  else if String.eqb d0 "END" then
    mret (RInt 1)
  else
    mret (RInt 0).

(** [Macro.parse_next] *)
Definition Macro_parse_next (self : loc) (data : list string) : py ret :=
  d0 ← index data 0;
  if String.eqb d0 "CLASS" then
    d1 ← index data 1;
    setitem self "CLASS" (VStr d1);;
    mret (RInt 0)
  else if String.eqb d0 "ORIGIN" then
    d1 ← index data 1;
    x_cor ← float d1;
    d2 ← index data 2;
    y_cor ← float d2;
    setitem self "ORIGIN" (VTuple [VFloat x_cor; VFloat y_cor]);;
    mret (RInt 0)
  else if String.eqb d0 "FOREIGN" then
    setitem self "FOREIGN" (VList (VStr <$> drop 1 data));;
    mret (RInt 0)
  else if String.eqb d0 "SIZE" then
    d1 ← index data 1;
    width ← float d1;
    d3 ← index data 3;
    height ← float d3;
    setitem self "SIZE" (VTuple [VFloat width; VFloat height]);;
    mret (RInt 0)
  else if String.eqb d0 "SYMMETRY" then
    setitem self "SYMMETRY" (VList (VStr <$> drop 1 data));;
    mret (RInt 0)
  else if String.eqb d0 "SITE" then
    d1 ← index data 1;
    setitem self "SITE" (VStr d1);;
    mret (RInt 0)
  else if String.eqb d0 "PIN" then
    d1 ← index data 1;
    new_pin ← Pin d1;
    has ← contains self "PIN";
    (if has : bool then append_item self "PIN" (VRef new_pin)
     else setitem self "PIN" (VList [VRef new_pin]));;
    mret (RObj new_pin)
  else if String.eqb d0 "OBS" then
    new_obs ← Obs;
    setitem self "OBS" (VRef new_obs);;
    mret (RObj new_obs)
  else if String.eqb d0 "END" then
    d1 ← index data 1;
    n ← get_name self;
    if String.eqb d1 n then mret (RInt 1) else mret (RInt (-1))
  else
    mret (RInt 0).

(** [Pin.parse_next] *)
Definition Pin_parse_next (self : loc) (data : list string) : py ret :=
  d0 ← index data 0;
  if String.eqb d0 "DIRECTION" then
    d1 ← index data 1;
    setitem self "DIRECTION" (VStr d1);;
    mret (RInt 0)
  else if String.eqb d0 "USE" then
    d1 ← index data 1;
    setitem self "DIRECTION" (VStr d1);;
    mret (RInt 0)
  else if String.eqb d0 "PORT" then
    new_port ← Port;
    setitem self "PORT" (VRef new_port);;
    mret (RObj new_port)
  else if String.eqb d0 "SHAPE" then
    d1 ← index data 1;
    setitem self "SHAPE" (VStr d1);;
    mret (RInt 0)
  else if String.eqb d0 "END" then
    d1 ← index data 1;
    n ← get_name self;
    if String.eqb d1 n then mret (RInt 1) else mret (RInt (-1))
  else
    mret (RInt 0).

(** [Port.parse_next] *)
Definition Port_parse_next (self : loc) (data : list string) : py ret :=
  d0 ← index data 0;
  if String.eqb d0 "END" then
    mret (RInt 1)
  else if String.eqb d0 "LAYER" then
    name ← index data 1;
    d1 ← index data 1;
    new_layerdef ← LayerDef d1;
    has ← contains self "LAYER";
    (if has : bool then append_item self "LAYER" (VRef new_layerdef)
     else setitem self "LAYER" (VList [VRef new_layerdef]));;
    mret (RInt 0)
  else if String.eqb d0 "RECT" then
    layers ← getitem self "LAYER";
    lastl ← subscript_last layers;
    call_add_rect lastl data;;
    mret (RInt 0)
  else
    mret (RInt 0).

(** [Obs.parse_next] *)
Definition Obs_parse_next (self : loc) (data : list string) : py ret :=
  d0 ← index data 0;
  if String.eqb d0 "END" then
    mret (RInt 1)
  else if String.eqb d0 "LAYER" then
    name ← index data 1;
    d1 ← index data 1;
    new_layerdef ← LayerDef d1;
    has ← contains self "LAYER";
    (if has : bool then append_item self "LAYER" (VRef new_layerdef)
     else setitem self "LAYER" (VList [VRef new_layerdef]));;
    mret (RInt 0)
  else if String.eqb d0 "RECT" then
    layers ← getitem self "LAYER";
    lastl ← subscript_last layers;
    call_add_rect lastl data;;
    mret (RInt 0)
  else
    mret (RInt 0).

(** [self.parse_next(data)]: the method of the class of the object at
    [self].  [LayerDef] has no [parse_next]. *)
Definition parse_next (self : loc) (data : list string) : py ret := λ s,
  match s !! self with
  | Some OStatement => Statement_parse_next self data s
  | Some (OMacro _) => Macro_parse_next self data s
  | Some (OPin _) => Pin_parse_next self data s
  | Some (OPort _) => Port_parse_next self data s
  | Some (OObs _) => Obs_parse_next self data s
  | Some (OLayerDef _) | None => (inl AttributeError, s)
  end.

(** ** String renderings

    [Macro.__str__] is left out: it goes through [self.info] in the
    dictionary's own key order and prints floats and lists with [str], and
    neither is part of this embedding. *)

(** The line feed of ["\n"]. *)
Definition nl : string := String (Ascii.ascii_of_nat 10) EmptyString.

(** [for x in v]: the items the loop goes through; a string gives its
    characters, a float or an instance is not iterable. *)
Definition iterate (v : value) : py (list value) :=
  match v with
  | VList l | VTuple l => mret l
  | VStr x => mret ((λ c, VStr (String c EmptyString)) <$> String.list_ascii_of_string x)
  | VFloat _ | VRef _ => raise TypeError
  end.

(** [v.info] *)
Definition attr_info (v : value) : py (gmap string value) :=
  match v with
  | VRef r => get_info r
  | _ => raise AttributeError
  end.

(** [v.type] *)
Definition attr_type (v : value) : py string :=
  match v with
  | VRef r => λ s,
      match s !! r with
      | Some (OLayerDef l) => (inr (l_type l), s)
      | Some o =>
          match stmt_of o with
          | Some st => (inr (type st), s)
          | None => (inl AttributeError, s)
          end
      | None => (inl AttributeError, s)
      end
  | _ => raise AttributeError
  end.

(** [v.name] *)
Definition attr_name (v : value) : py string :=
  match v with
  | VRef r => λ s,
      match s !! r with
      | Some (OLayerDef l) => (inr (l_name l), s)
      | Some o =>
          match stmt_of o with
          | Some st => (inr (name st), s)
          | None => (inl AttributeError, s)
          end
      | None => (inl AttributeError, s)
      end
  | _ => raise AttributeError
  end.

(** The loop [for layer in ...: s += layer.type + " " + layer.name + "\n"],
    with [acc] the [s] built so far. *)
Fixpoint render_layers (layers : list value) (acc : string) : py string :=
  match layers with
  | [] => mret acc
  | layer :: layers' =>
      t ← attr_type layer;
      n ← attr_name layer;
      render_layers layers' (acc +:+ (t +:+ " " +:+ n +:+ nl))
  end.

(** [Statement.__str__], which [Port] inherits. *)
Definition Statement_str (self : loc) : py string :=
  λ s,
    match s !! self with
    | Some o =>
        match stmt_of o with
        | Some st => (inr (EmptyString +:+ (type st +:+ " " +:+ name st)), s)
        | None => (inl AttributeError, s)
        end
    | None => (inl AttributeError, s)
    end.

(** [Pin.__str__] *)
Definition Pin_str (self : loc) : py string :=
  port ← getitem self "PORT";
  i ← attr_info port;
  layers ← match i !! "LAYER" with
           | Some v => mret v
           | None => raise KeyError
           end;
  items ← iterate layers;
  render_layers items EmptyString.

(** [Obs.__str__] *)
Definition Obs_str (self : loc) : py string :=
  layers ← getitem self "LAYER";
  items ← iterate layers;
  render_layers items EmptyString.

(** ** The driving loop *)

(** The returned value as the caller reads it, after the docstrings of
    [parse_next] (0 if in progress, 1 if parsing is done, -1 if error,
    otherwise the object that will be parsed next).  An ignored line gives
    0 as well, so it reads as [Continue]. *)
Inductive Outcome : Type :=
| Continue
| Enter (child : loc)
| Done
| Error.

Definition outcome (r : ret) : option Outcome :=
  match r with
  | RObj child => Some (Enter child)
  | RInt 0 => Some Continue
  | RInt 1 => Some Done
  | RInt (-1) => Some Error
  | RInt _ => None
  end.

(** Modelled from the spec: the state of the driving loop, which is not
    part of util.py: the stack of active contexts, the macros completed so
    far, and whether the parse was aborted. *)
Record driver := mkDriver {
  stack : list loc;        (* active contexts, innermost first *)
  completed : list loc;    (* macros closed by their END, in file order *)
  aborted : bool
}.

(** Modelled from the spec: the test the loop needs to tell a completed
    macro from another closed block, [isinstance(r, Macro)]. *)
Definition is_Macro (r : loc) : py bool := λ s,
  (inr (match s !! r with Some (OMacro _) => true | _ => false end), s).

(** Modelled from the spec: one round of the driving loop, which is not
    part of util.py.  It calls the transition of the top context on the
    token vector, stays on [Continue]/[Ignored], pushes the child on
    [Enter], pops on [Done] (a popped macro is a completed record) and
    aborts on [Error]. *)
Definition feed (d : driver) (data : list string) : py driver :=
  if aborted d then mret d else
  match stack d with
  | [] => mret d
  | top :: rest =>
      r ← parse_next top data;
      match outcome r with
      | Some (Enter child) => mret (mkDriver (child :: top :: rest) (completed d) false)
      | Some Done =>
          m ← is_Macro top;
          mret (mkDriver rest (if m : bool then completed d ++ [top] else completed d) false)
      | Some Error => mret (mkDriver (top :: rest) (completed d) true)
      | Some Continue | None => mret d
      end
  end.

(** Modelled from the spec: the loop over the token vectors of the file. *)
Fixpoint drive (d : driver) (lines : list (list string)) : py driver :=
  match lines with
  | [] => mret d
  | data :: lines' => d' ← feed d data; drive d' lines'
  end.

(** Modelled from the spec: the parse starts with the dispatcher, a bare
    [Statement], as the only active context. *)
Definition parse (lines : list (list string)) : py driver :=
  root ← alloc OStatement;
  drive (mkDriver [root] [] false) lines.

End Embedding.

Abbreviation store F := (list (obj F)) (only parsing).

Arguments VStr {F} s.
Arguments VFloat {F} x.
Arguments VTuple {F} l.
Arguments VList {F} l.
Arguments VRef {F} r.
Arguments mkStmt {F} type name info.
Arguments type {F} s.
Arguments name {F} s.
Arguments info {F} s.
Arguments OStatement {F}.
Arguments OMacro {F} o.
Arguments OPin {F} o.
Arguments OPort {F} o.
Arguments OObs {F} o.
Arguments OLayerDef {F} l.
Arguments raise {F A} e.
Arguments index {F} data i.
Arguments alloc {F} o.
Arguments get_stmt {F} self.
Arguments get_info {F} self.
Arguments get_name {F} self.
Arguments setitem {F} self k v.
Arguments getitem {F} self k.
Arguments contains {F} self k.
Arguments append_item {F} self k x.
Arguments subscript_last {F} v.
Arguments append_shape {F} self rect.
Arguments add_rect {F} self data.
Arguments call_add_rect {F} v data.
Arguments stmt_of {F} o.
Arguments with_info {F} o i.
Arguments float {F} parse_float x.
Arguments Macro {F} name.
Arguments Pin {F} name.
Arguments Port {F}.
Arguments Obs {F}.
Arguments LayerDef {F} name.
Arguments Statement_parse_next {F} self data.
Arguments Macro_parse_next {F} parse_float self data.
Arguments Pin_parse_next {F} self data.
Arguments Port_parse_next {F} self data.
Arguments Obs_parse_next {F} self data.
Arguments parse_next {F} parse_float self data.
Arguments feed {F} parse_float d data.
Arguments drive {F} parse_float d lines.
Arguments parse {F} parse_float lines.
Arguments iterate {F} v.
Arguments attr_info {F} v.
Arguments attr_type {F} v.
Arguments attr_name {F} v.
Arguments render_layers {F} layers acc.
Arguments Statement_str {F} self.
Arguments Pin_str {F} self.
Arguments Obs_str {F} self.
Arguments outcome r : assert.
Arguments is_Macro {F} r.
Arguments mkDriver stack completed aborted : assert.

(** ** A sample instance of the float parameter

    A partial reading of decimal literals as binary64 floats, to run the
    transitions on concrete lines.  It answers only on a literal
    [[+-]digits[.digits]] whose digits, read as one integer, stay below
    2^53 and which has at most 22 digits after the dot: both that integer
    and the power of ten are then exact floats, and their quotient is the
    correctly rounded value.  On every other string it answers [None],
    also on forms Python's [float] accepts (exponents, [inf], [nan],
    surrounding blanks, underscores, a dot without digits on one side,
    longer literals): there it differs from [float], and no statement
    below uses it on such a string. *)

Definition digit_of (c : Ascii.ascii) : option Z :=
  let n := Z.of_nat (nat_of_ascii c) in
  if (48 <=? n) && (n <=? 57) then Some (n - 48) else None.

(** Reads a run of digits up to the end or to a dot; returns the number
    read so far, the count of digits and the rest after the dot. *)
Fixpoint read_digits (s : string) (acc : Z) (cnt : nat) : option (Z * nat * option string) :=
  match s with
  | EmptyString => Some (acc, cnt, None)
  | String c s' =>
      if Ascii.eqb c "."%char then Some (acc, cnt, Some s')
      else match digit_of c with
           | Some d => read_digits s' (10 * acc + d) (S cnt)
           | None => None
           end
  end.

(** The float of the integer [m], when it is one exactly. *)
Definition exact_float (m : Z) : option PrimFloat.float :=
  if (0 <=? m) && (m <? 2 ^ 53)
  then Some (PrimFloat.of_uint63 (Uint63.of_Z m))
  else None.

Definition unsigned_float (s : string) : option PrimFloat.float :=
  match read_digits s 0 0%nat with
  | Some (i, S _, None) => exact_float i
  | Some (i, S _, Some fr) =>
      match read_digits fr i 0%nat with
      | Some (m, S k, None) =>
          if (S k <=? 22)%nat then
            x ← exact_float m;
            y ← exact_float (10 ^ Z.of_nat (S k));
            Some (PrimFloat.div x y)
          else None
      | _ => None
      end
  | _ => None
  end.

Definition sample_float (s : string) : option PrimFloat.float :=
  match s with
  | String "-" s' => PrimFloat.opp <$> unsigned_float s'
  | String "+" s' => unsigned_float s'
  | _ => unsigned_float s
  end.

(** * Properties of the transitions *)

(** Runs the store-passing computation in the goal as far as it is
    determined, reading the store through the lookups in the context. *)
Ltac py_run :=
  repeat (cbn;
          unfold mbind, mret, py_bind, py_ret, raise, index, float,
                 getitem, contains, get_info, get_name, get_stmt, setitem, alloc;
          repeat match goal with
                 | H : ?s !! ?i = Some _ |- context [?s !! ?i] => rewrite H
                 | H : ?s !! ?i = Some _ |- context [(?s ++ ?t) !! ?i] =>
                     rewrite (lookup_app_l_Some s t i _ H)
                 | H : ?f ?x = Some _ |- context [?f ?x] => rewrite H
                 | H : ?f ?x = None |- context [?f ?x] => rewrite H
                 end).

Section Properties.

Context {F : Type} (parse_float : string → option F).

Implicit Types (s : store F) (st : stmt F) (o : obj F) (self : loc).
Implicit Types (data rest : list string).

(** The keywords each class tests [data[0]] against. *)
Definition keywords o : list string :=
  match o with
  | OStatement => ["MACRO"; "END"]
  | OMacro _ =>
      ["CLASS"; "ORIGIN"; "FOREIGN"; "SIZE"; "SYMMETRY"; "SITE"; "PIN"; "OBS"; "END"]
  | OPin _ => ["DIRECTION"; "USE"; "PORT"; "SHAPE"; "END"]
  | OPort _ | OObs _ => ["END"; "LAYER"; "RECT"]
  | OLayerDef _ => []
  end.

(** A context of the transition protocol: any instance but a [LayerDef]. *)
Definition is_context o : Prop :=
  match o with OLayerDef _ => False | _ => True end.

(** The object at [self] is a [Macro] or a [Pin] (the named blocks), resp.
    a [Port] or an [Obs] (the layer blocks), with attributes [st]. *)
Definition named_block s self st : Prop :=
  s !! self = Some (OMacro st) ∨ s !! self = Some (OPin st).

Definition layer_block s self st : Prop :=
  s !! self = Some (OPort st) ∨ s !! self = Some (OObs st).

(** The ["LAYER"] entry of a Port or an Obs, once present, is a non-empty
    list of references to pairwise distinct [LayerDef] objects: every entry
    comes from a fresh allocation. *)
Definition layers_ok s (i : gmap string (value F)) : Prop :=
  ∀ v, i !! "LAYER" = Some v →
    ∃ rs : list loc, v = VList (VRef <$> rs) ∧ rs ≠ [] ∧ NoDup rs
          ∧ ∀ r, r ∈ rs → ∃ ld, s !! r = Some (OLayerDef ld).

(** The indices at which a Macro reads a number with [float]: tokens 1 and
    2 of an [ORIGIN] line, tokens 1 and 3 of a [SIZE] line. *)
Definition numeric_indices (kw : string) : list nat :=
  if String.eqb kw "ORIGIN" then [1; 2]%nat
  else if String.eqb kw "SIZE" then [1; 3]%nat
  else [].

(** The call reports an error through the transition contract: it returns
    the value read as [Error]. *)
Definition reports_error (res : (exn + ret) * store F) : Prop :=
  ∃ r s', res = (inr r, s') ∧ outcome r = Some Error.

(** The keywords of each class whose branch reads [data[1]] first. *)
Definition needs_argument o : list string :=
  match o with
  | OStatement => ["MACRO"]
  | OMacro _ => ["CLASS"; "ORIGIN"; "SIZE"; "SITE"; "PIN"; "END"]
  | OPin _ => ["DIRECTION"; "USE"; "SHAPE"; "END"]
  | OPort _ | OObs _ => ["LAYER"]
  | OLayerDef _ => []
  end.

(** The classes of util.py. *)
Inductive klass : Set :=
| KStatement | KMacro | KPin | KPort | KObs | KLayerDef.

Definition class_of o : klass :=
  match o with
  | OStatement => KStatement
  | OMacro _ => KMacro
  | OPin _ => KPin
  | OPort _ => KPort
  | OObs _ => KObs
  | OLayerDef _ => KLayerDef
  end.

(** [o'] is [o] after some transitions: the same class, type and name, no
    key of [info] lost, the shapes of a layer extended at the end. *)
Definition obj_le o o' : Prop :=
  match o, o' with
  | OStatement, OStatement => True
  | OMacro a, OMacro b | OPin a, OPin b | OPort a, OPort b | OObs a, OObs b =>
      type a = type b ∧ name a = name b
      ∧ ∀ k : string, is_Some (info a !! k) → is_Some (info b !! k)
  | OLayerDef a, OLayerDef b =>
      l_type a = l_type b ∧ l_name a = l_name b ∧ shapes a `prefix_of` shapes b
  | _, _ => False
  end.

Definition grows s s' : Prop :=
  ∀ (l : loc) o, s !! l = Some o → ∃ o', s' !! l = Some o' ∧ obj_le o o'.

(** The shapes of the values the transitions store. *)
Definition is_str (v : value F) : Prop := ∃ x, v = VStr x.

Definition is_float_pair (v : value F) : Prop :=
  ∃ x y, v = VTuple [VFloat x; VFloat y].

Definition is_str_list (v : value F) : Prop :=
  ∃ l : list string, v = VList (VStr <$> l).

Definition is_ref_to (c : klass) s (v : value F) : Prop :=
  ∃ (r : loc) o, v = VRef r ∧ s !! r = Some o ∧ class_of o = c.

Definition is_refs_to (c : klass) s (v : value F) : Prop :=
  ∃ rs : list loc, v = VList (VRef <$> rs) ∧ rs ≠ [] ∧ NoDup rs
    ∧ ∀ r, r ∈ rs → ∃ o, s !! r = Some o ∧ class_of o = c.

(** The entries an [info] dictionary of each class can hold. *)
Definition macro_field s (k : string) (v : value F) : Prop :=
  ((k = "CLASS" ∨ k = "SITE") ∧ is_str v)
  ∨ ((k = "ORIGIN" ∨ k = "SIZE") ∧ is_float_pair v)
  ∨ ((k = "FOREIGN" ∨ k = "SYMMETRY") ∧ is_str_list v)
  ∨ (k = "PIN" ∧ is_refs_to KPin s v)
  ∨ (k = "OBS" ∧ is_ref_to KObs s v).

Definition pin_field s (k : string) (v : value F) : Prop :=
  ((k = "DIRECTION" ∨ k = "SHAPE") ∧ is_str v)
  ∨ (k = "PORT" ∧ is_ref_to KPort s v).

Definition layer_field s (k : string) (v : value F) : Prop :=
  k = "LAYER" ∧ is_refs_to KLayerDef s v.

Definition fields_ok (P : string → value F → Prop) st : Prop :=
  ∀ (k : string) v, info st !! k = Some v → P k v.

(** The object is one the constructors and transitions of util.py build:
    the type tag of its class, and only entries of its class in [info]. *)
Definition obj_ok s o : Prop :=
  match o with
  | OStatement => True
  | OMacro st => type st = "MACRO" ∧ fields_ok (macro_field s) st
  | OPin st => type st = "PIN" ∧ fields_ok (pin_field s) st
  | OPort st =>
      type st = "PORT" ∧ name st = EmptyString ∧ fields_ok (layer_field s) st
  | OObs st =>
      type st = "OBS" ∧ name st = EmptyString ∧ fields_ok (layer_field s) st
  | OLayerDef l => l_type l = "LayerDef"
  end.

Definition store_ok s : Prop :=
  ∀ (l : loc) o, s !! l = Some o → obj_ok s o.

(** The stores reached from [s] by any number of [parse_next] calls, on
    any objects and lines, whether the calls return or raise. *)
Inductive steps : store F → store F → Prop :=
| steps_refl s : steps s s
| steps_call s self data res s1 s2 :
    parse_next parse_float self data s = (res, s1) →
    steps s1 s2 →
    steps s s2.

(** The keywords of a Macro that set one entry of [info] from the line's
    tokens, under the key of the same name. *)
Definition macro_attributes : list string :=
  ["CLASS"; "ORIGIN"; "FOREIGN"; "SIZE"; "SYMMETRY"; "SITE"].

(** The names of the layers at the locations [rs], in order. *)
Definition layer_names s (rs : list loc) : list string :=
  omap (λ r, match s !! r with
             | Some (OLayerDef l) => Some (l_name l)
             | _ => None
             end) rs.

(** One line [t ++ " " ++ n ++ "\n"] of the renderings. *)
Definition layer_line (t n : string) : string := t +:+ " " +:+ n +:+ nl.

(** The text the renderings give for layers of the given names. *)
Definition layer_lines (names : list string) : string :=
  foldr (λ n acc, layer_line "LayerDef" n +:+ acc) EmptyString names.

Lemma eqb_false_of_not_elem (kw k : string) (ks : list string) :
  kw ∉ ks → k ∈ ks → String.eqb kw k = false.
Proof.
  intros Hn Hk. apply String.eqb_neq. intros ->. contradiction.
Qed.

Ltac not_keyword H :=
  repeat match goal with
  | |- context [String.eqb ?kw ?k] =>
      rewrite (eqb_false_of_not_elem kw k _ H) by set_solver
  end.

(** C6. In every context (dispatcher, Macro, Pin, Port, Obs) a token vector
    whose first token is none of the context's keywords returns 0, the
    value of [Continue]/[Ignored], and leaves the whole store as it was: no
    field is modified, no child is created, nothing is raised. *)
Theorem unknown_keyword_ignored self s o (kw : string) rest :
  s !! self = Some o →
  is_context o →
  kw ∉ keywords o →
  parse_next parse_float self (kw :: rest) s = (inr (RInt 0), s)
  ∧ outcome (RInt 0) = Some Continue.
Proof.
  intros Hs Hc Hk. split; [|reflexivity].
  unfold parse_next. rewrite Hs.
  destruct o; simpl in Hc, Hk; try contradiction;
    [ unfold Statement_parse_next | unfold Macro_parse_next
    | unfold Pin_parse_next | unfold Port_parse_next | unfold Obs_parse_next ];
    py_run; not_keyword Hk; reflexivity.
Qed.

(** C9. A bare [END] (no name token) given to a Macro or a Pin makes the
    transition read [data[1]], which is out of range: [IndexError] is
    raised with the store untouched, so no value (neither 1, -1 nor 0) is
    returned. *)
Theorem bare_END_raises_IndexError self s st :
  named_block s self st →
  parse_next parse_float self ["END"] s = (inl IndexError, s)
  ∧ ∀ r s', parse_next parse_float self ["END"] s ≠ (inr r, s').
Proof.
  intros [Hs | Hs];
    (assert (parse_next parse_float self ["END"] s = (inl IndexError, s)) as E
       by (unfold parse_next; rewrite Hs; reflexivity));
    (split; [exact E | intros r s'; rewrite E; discriminate]).
Qed.

(** C2. For a Macro or a Pin named [n], the line [END m] returns 1 ([Done])
    when [m] is [n] and -1 ([Error]) when it is not; in both cases the
    store is unchanged.  A mismatching name is thus never taken for a
    close. *)
Theorem END_name_checked self s st (m : string) rest :
  named_block s self st →
  (m = name st →
     parse_next parse_float self ("END" :: m :: rest) s = (inr (RInt 1), s))
  ∧ (m ≠ name st →
     parse_next parse_float self ("END" :: m :: rest) s = (inr (RInt (-1)), s))
  ∧ outcome (RInt 1) = Some Done ∧ outcome (RInt (-1)) = Some Error.
Proof.
  intros Hb. split_and!; [| |reflexivity..].
  - intros E. apply String.eqb_eq in E.
    destruct Hb as [Hs | Hs]; unfold parse_next; rewrite Hs;
      [unfold Macro_parse_next | unfold Pin_parse_next]; py_run;
      rewrite E; reflexivity.
  - intros E. apply String.eqb_neq in E.
    destruct Hb as [Hs | Hs]; unfold parse_next; rewrite Hs;
      [unfold Macro_parse_next | unfold Pin_parse_next]; py_run;
      rewrite E; reflexivity.
Qed.

(** Storing under a key of an existing object. *)
Lemma lookup_insert_self s self o o' :
  s !! self = Some o → <[self := o']> s !! self = Some o'.
Proof.
  intros Hs. apply list_lookup_insert_eq. by eapply lookup_lt_Some.
Qed.

Lemma lookup_alloc_old s self o o' :
  s !! self = Some o → (s ++ [o']) !! self = Some o.
Proof. intros Hs. by apply lookup_app_l_Some. Qed.

Lemma lookup_alloc_new s o' : (s ++ [o']) !! List.length s = Some o'.
Proof. apply list_lookup_middle. reflexivity. Qed.

(** No transition of a Pin writes the key ["USE"], whatever the line and
    whether it returns or raises. *)
Lemma Pin_never_writes_USE self s st data res s' :
  s !! self = Some (OPin st) →
  Pin_parse_next self data s = (res, s') →
  ∃ st', s' !! self = Some (OPin st') ∧ name st' = name st
         ∧ info st' !! "USE" = info st !! "USE".
Proof.
  intros Hs. unfold Pin_parse_next.
  destruct data as [|d0 [|d1 tl]]; py_run;
    repeat (match goal with
            | |- context [String.eqb ?a ?b] => destruct (String.eqb a b)
            end; py_run);
    intros [= <- <-];
    try (eexists; split; [eassumption | done]);
    (eexists; split;
     [ eapply lookup_insert_self;
       first [eassumption | eapply lookup_alloc_old; eassumption]
     | split; [reflexivity | cbn; by rewrite lookup_insert_ne] ]).
Qed.

(** C3. In a Pin, [USE v] stores [v] under the key ["DIRECTION"], exactly
    as [DIRECTION v] does: afterwards the direction slot holds [v] whatever
    it held before, so a [USE] after a [DIRECTION] overwrites it, and the
    key ["USE"] is written neither by this line nor by any other line a Pin
    processes. *)
Theorem USE_stores_into_DIRECTION self s st (v : string) rest :
  s !! self = Some (OPin st) →
  let st' := mkStmt (type st) (name st) (<["DIRECTION" := VStr v]> (info st)) in
  parse_next parse_float self ("USE" :: v :: rest) s
    = (inr (RInt 0), <[self := OPin st']> s)
  ∧ parse_next parse_float self ("USE" :: v :: rest) s
    = parse_next parse_float self ("DIRECTION" :: v :: rest) s
  ∧ info st' !! "DIRECTION" = Some (VStr v)
  ∧ info st' !! "USE" = info st !! "USE"
  ∧ (∀ (d : string) rest' s1,
       s1 = (parse_next parse_float self ("DIRECTION" :: d :: rest') s).2 →
       ∃ st2, (parse_next parse_float self ("USE" :: v :: rest) s1).2 !! self
                = Some (OPin st2)
              ∧ info st2 !! "DIRECTION" = Some (VStr v))
  ∧ (∀ data res s1,
       parse_next parse_float self data s = (res, s1) →
       ∃ st1, s1 !! self = Some (OPin st1)
              ∧ info st1 !! "USE" = info st !! "USE").
Proof.
  intros Hs st'.
  assert (∀ (k : string) s0 st0, s0 !! self = Some (OPin st0) →
            k = "USE" ∨ k = "DIRECTION" →
            parse_next parse_float self (k :: v :: rest) s0
            = (inr (RInt 0),
               <[self := OPin (mkStmt (type st0) (name st0)
                                 (<["DIRECTION" := VStr v]> (info st0)))]> s0))
    as Hstep.
  { intros k s0 st0 H0 [-> | ->]; unfold parse_next; rewrite H0;
      unfold Pin_parse_next; by py_run. }
  split_and!.
  - by apply Hstep; auto.
  - rewrite (Hstep "USE" s st), (Hstep "DIRECTION" s st) by auto. reflexivity.
  - apply lookup_insert_eq.
  - by apply lookup_insert_ne.
  - intros d rest' s1 ->.
    assert (parse_next parse_float self ("DIRECTION" :: d :: rest') s
            = (inr (RInt 0),
               <[self := OPin (mkStmt (type st) (name st)
                                 (<["DIRECTION" := VStr d]> (info st)))]> s))
      as -> by (unfold parse_next; rewrite Hs; unfold Pin_parse_next; by py_run).
    cbn [snd]. erewrite Hstep; [|by eapply lookup_insert_self|by left].
    cbn [snd]. eexists. split.
    + eapply lookup_insert_self. by eapply lookup_insert_self.
    + apply lookup_insert_eq.
  - intros data res s1. unfold parse_next. rewrite Hs. intros Hp.
    destruct (Pin_never_writes_USE _ _ _ _ _ _ Hs Hp) as (st1 & H1 & _ & H2).
    eauto.
Qed.

(** C4. In a Macro, a [SIZE] line whose tokens 1 and 3 are float literals
    sets the size to the pair (float of token 1, float of token 3); token 2
    (the [BY]) is not looked at. *)
Theorem SIZE_reads_tokens_1_and_3 self s st (t1 t2 t3 : string) rest (w h : F) :
  s !! self = Some (OMacro st) →
  parse_float t1 = Some w →
  parse_float t3 = Some h →
  parse_next parse_float self ("SIZE" :: t1 :: t2 :: t3 :: rest) s
  = (inr (RInt 0),
     <[self := OMacro (mkStmt (type st) (name st)
                         (<["SIZE" := VTuple [VFloat w; VFloat h]]> (info st)))]> s).
Proof.
  intros Hs H1 H3. unfold parse_next. rewrite Hs.
  unfold Macro_parse_next. by py_run.
Qed.

(** C5 (as the code has it). In a Macro, every token vector whose first
    token is [ORIGIN] or [SIZE] and which holds, at one of the indices the
    keyword reads a number from, a token that is no float literal, makes
    [float] raise [ValueError], however many tokens the vector has: the
    exception leaves [parse_next] with the store untouched, and no value,
    in particular not the error value -1, is returned. *)
Theorem malformed_numeric_raises_ValueError self s st data (kw t : string) (i : nat) :
  s !! self = Some (OMacro st) →
  data !! 0%nat = Some kw →
  i ∈ numeric_indices kw →
  data !! i = Some t →
  parse_float t = None →
  parse_next parse_float self data s = (inl ValueError, s)
  ∧ ∀ r s', parse_next parse_float self data s ≠ (inr r, s').
Proof.
  intros Hs H0 Hi Ht Hf.
  assert (parse_next parse_float self data s = (inl ValueError, s)) as E.
  { assert (is_Some (data !! 1%nat)) as [t1 H1].
    { apply lookup_lt_is_Some. apply lookup_lt_Some in Ht.
      unfold numeric_indices in Hi.
      destruct (String.eqb kw "ORIGIN"); [|destruct (String.eqb kw "SIZE")];
        repeat (apply elem_of_cons in Hi as [-> | Hi]); try lia;
        by apply elem_of_nil in Hi. }
    unfold numeric_indices in Hi. unfold parse_next. rewrite Hs.
    unfold Macro_parse_next.
    destruct (String.eqb kw "ORIGIN") eqn:Ho;
      [apply String.eqb_eq in Ho as ->
      |destruct (String.eqb kw "SIZE") eqn:Hz;
       [apply String.eqb_eq in Hz as -> | by apply elem_of_nil in Hi]];
      repeat (apply elem_of_cons in Hi as [-> | Hi]);
      try (by apply elem_of_nil in Hi);
      simplify_eq; py_run; try done;
      destruct (parse_float t1); by py_run. }
  split; [exact E | intros r s'; rewrite E; discriminate].
Qed.

(** C1 (as the code has it). In a Port or an Obs in which no [LAYER] line
    has created the ["LAYER"] entry, a [RECT] line raises [KeyError] on the
    lookup of that entry, before any token past [data[0]] is read: the
    store is untouched, no value is returned, and no sequence is indexed
    out of range. *)
Theorem RECT_without_LAYER_raises_KeyError self s st rest :
  layer_block s self st →
  info st !! "LAYER" = None →
  parse_next parse_float self ("RECT" :: rest) s = (inl KeyError, s)
  ∧ ∀ r s', parse_next parse_float self ("RECT" :: rest) s ≠ (inr r, s').
Proof.
  intros Hb Hl.
  assert (parse_next parse_float self ("RECT" :: rest) s = (inl KeyError, s)) as E.
  { destruct Hb as [Hs | Hs]; unfold parse_next; rewrite Hs;
      [unfold Port_parse_next | unfold Obs_parse_next]; by py_run. }
  split; [exact E | intros r s'; rewrite E; discriminate].
Qed.

(** C10. In a Macro, each [OBS] line creates a new empty [Obs] and stores
    the reference to it under the single key ["OBS"], returning it as the
    next context.  The slot holds the new reference whatever it held
    before (an Obs of an earlier [OBS] block is a different object and is
    no longer referred to by the macro); every other key of the macro and
    every other object of the store is as before. *)
Theorem OBS_overwrites_obstruction self s st rest :
  s !! self = Some (OMacro st) →
  let new_obs := List.length s in
  let st' := mkStmt (type st) (name st) (<["OBS" := VRef new_obs]> (info st)) in
  let s' := <[self := OMacro st']> (s ++ [OObs (mkStmt "OBS" EmptyString ∅)]) in
  parse_next parse_float self ("OBS" :: rest) s = (inr (RObj new_obs), s')
  ∧ s' !! self = Some (OMacro st')
  ∧ s' !! new_obs = Some (OObs (mkStmt "OBS" EmptyString ∅))
  ∧ info st' !! "OBS" = Some (VRef new_obs)
  ∧ (∀ k : string, k ≠ "OBS" → info st' !! k = info st !! k)
  ∧ (∀ old o, s !! old = Some o → old ≠ new_obs)
  ∧ (∀ old, old ≠ self → old ≠ new_obs → s' !! old = s !! old).
Proof.
  intros Hs new_obs st' s'.
  assert (self < List.length s)%nat as Hlt by by eapply lookup_lt_Some.
  split_and!.
  - unfold parse_next. rewrite Hs. unfold Macro_parse_next. py_run.
    by py_run.
  - eapply lookup_insert_self. by eapply lookup_alloc_old.
  - unfold s'. rewrite list_lookup_insert_ne by (unfold new_obs; lia).
    apply lookup_alloc_new.
  - apply lookup_insert_eq.
  - intros k Hk. by apply lookup_insert_ne.
  - intros old o Ho. apply lookup_lt_Some in Ho. unfold new_obs. lia.
  - intros old H1 H2. unfold s'. rewrite list_lookup_insert_ne by done.
    destruct (decide (old < List.length s)%nat).
    + by rewrite lookup_app_l.
    + rewrite (lookup_ge_None_2 s) by lia.
      apply lookup_ge_None_2. rewrite length_app. cbn.
      unfold new_obs in H2. lia.
Qed.

(** [Obs.parse_next] repeats [Port.parse_next] line for line. *)
Lemma Obs_parse_next_Port self data :
  @Obs_parse_next F self data = Port_parse_next self data.
Proof. reflexivity. Qed.

Lemma parse_next_layer_block self s st data :
  layer_block s self st →
  parse_next parse_float self data s = Port_parse_next self data s.
Proof. intros [Hs | Hs]; unfold parse_next; by rewrite Hs. Qed.

(** C8. In a Port or an Obs whose ["LAYER"] list is non-empty, the line
    [RECT x0 y0 x1 y1] returns 0 and appends the rectangle with corner
    points [(x0,y0)] and [(x1,y1)] to the shapes of the [LayerDef] that the
    last entry of the list refers to.  Nothing else changes: the block
    itself (its layer list and every other key), the layer objects of the
    earlier entries, and every other object of the store. *)
Theorem RECT_appends_to_last_layer self s st (rs : list loc) (r : loc)
    (ld : layerdef) (x0 y0 x1 y1 : string) rest :
  layer_block s self st →
  info st !! "LAYER" = Some (VList (VRef <$> rs)) →
  last rs = Some r →
  NoDup rs →
  s !! r = Some (OLayerDef ld) →
  let rect := mkRect [(x0, y0); (x1, y1)] in
  let ld' := mkLayerDef (l_type ld) (l_name ld) (shapes ld ++ [rect]) in
  let s' := <[r := OLayerDef ld']> s in
  parse_next parse_float self ("RECT" :: x0 :: y0 :: x1 :: y1 :: rest) s
  = (inr (RInt 0), s')
  ∧ s' !! r = Some (OLayerDef ld')
  ∧ s' !! self = s !! self
  ∧ (∀ (i : nat) r', (S i < List.length rs)%nat → rs !! i = Some r' →
       s' !! r' = s !! r')
  ∧ (∀ l : loc, l ≠ r → s' !! l = s !! l).
Proof.
  intros Hb Hl Hlast Hnd Hr rect ld' s'.
  assert (∀ l : loc, l ≠ r → s' !! l = s !! l) as Hother.
  { intros l Hne. unfold s'. by rewrite list_lookup_insert_ne. }
  split_and!.
  - rewrite (parse_next_layer_block _ _ _ _ Hb). unfold Port_parse_next.
    destruct Hb as [Hs | Hs]; py_run;
      unfold subscript_last; rewrite fmap_last, Hlast; py_run;
      unfold add_rect, append_shape; by py_run.
  - by eapply lookup_insert_self.
  - apply Hother. intros ->. destruct Hb as [Hs | Hs]; congruence.
  - intros i r' Hi Hi'. apply Hother. intros ->.
    rewrite last_lookup in Hlast.
    pose proof (NoDup_lookup _ _ _ _ Hnd Hi' Hlast). lia.
  - exact Hother.
Qed.


(** ** The layer list of a Port or an Obs *)

Lemma with_info_id o st : stmt_of o = Some st → with_info o (info st) = o.
Proof. destruct o; cbn; intros [= <-]; try reflexivity; by destruct o. Qed.

Lemma layers_ok_empty s : layers_ok s ∅.
Proof. intros v Hv. by rewrite lookup_empty in Hv. Qed.

Lemma layers_ok_append s (rs : list loc) :
  (∀ r, r ∈ rs → ∃ ld, s !! r = Some (OLayerDef ld)) →
  NoDup rs →
  NoDup (rs ++ [List.length s]).
Proof.
  intros Hrs Hnd. apply NoDup_app. split_and!; [done| |apply NoDup_singleton].
  intros r Hr ->%list_elem_of_singleton.
  destruct (Hrs _ Hr) as [ld Hld%lookup_lt_Some]. lia.
Qed.

Lemma Port_step_layers_ok self s o st data res s' :
  s !! self = Some o →
  stmt_of o = Some st →
  layers_ok s (info st) →
  Port_parse_next self data s = (res, s') →
  ∃ i', s' !! self = Some (with_info o i') ∧ layers_ok s' i'.
Proof.
  intros Hs Ho Hok. unfold Port_parse_next.
  assert (∀ res0, (res0, s) = (res, s') →
            ∃ i', s' !! self = Some (with_info o i') ∧ layers_ok s' i') as Hsame.
  { intros res0 [= <- <-]. exists (info st). by rewrite (with_info_id _ _ Ho). }
  assert (self < List.length s)%nat as Hlt by by eapply lookup_lt_Some.
  assert (∀ r ld, s !! r = Some (OLayerDef ld) → r ≠ self) as Hne.
  { intros r ld Hr ->. rewrite Hs in Hr. injection Hr as ->. discriminate. }
  destruct data as [|d0 tl]; py_run; [by apply Hsame|].
  destruct (String.eqb d0 "END"); py_run; [by apply Hsame|].
  destruct (String.eqb d0 "LAYER"); py_run.
  { destruct tl as [|d1 tl]; py_run; [by apply Hsame|].
    destruct (info st !! "LAYER") as [v|] eqn:Hv; py_run.
    - destruct (Hok v Hv) as (rs & -> & Hnil & Hnd & Hrs).
      unfold append_item. py_run. intros [= <- <-].
      eexists. split.
      { eapply lookup_insert_self. by eapply lookup_alloc_old. }
      intros v. rewrite lookup_insert_eq. intros [= <-].
      exists (rs ++ [List.length s]). split_and!.
      + by rewrite fmap_app.
      + by destruct rs.
      + by eapply layers_ok_append.
      + intros r [Hr | ->%list_elem_of_singleton]%elem_of_app.
        * destruct (Hrs r Hr) as [ld Hld]. exists ld.
          rewrite list_lookup_insert_ne by (symmetry; by eapply Hne).
          by apply lookup_app_l_Some.
        * eexists. rewrite list_lookup_insert_ne by lia.
          apply lookup_alloc_new.
    - intros [= <- <-].
      eexists. split.
      { eapply lookup_insert_self. by eapply lookup_alloc_old. }
      intros v. rewrite lookup_insert_eq. intros [= <-].
      exists [List.length s]. split_and!; [done | done | apply NoDup_singleton |].
      intros r ->%list_elem_of_singleton.
      eexists. rewrite list_lookup_insert_ne by lia. apply lookup_alloc_new. }
  destruct (String.eqb d0 "RECT"); py_run; [|by apply Hsame].
  destruct (info st !! "LAYER") as [v|] eqn:Hv; py_run; [|by apply Hsame].
  destruct (Hok v Hv) as (rs & -> & Hnil & Hnd & Hrs).
  unfold subscript_last. rewrite fmap_last.
  destruct (last rs) as [r|] eqn:Hlast; [|by apply last_None in Hlast].
  py_run.
  destruct (Hrs r) as [ld Hld]; [by eapply last_Some_elem_of|].
  py_run. unfold add_rect.
  destruct tl as [|x0 [|y0 [|x1 [|y1 rest]]]]; py_run; try by apply Hsame.
  unfold append_shape. py_run. intros [= <- <-].
  exists (info st). split.
  { rewrite (with_info_id _ _ Ho), list_lookup_insert_ne; [done|].
    by eapply Hne. }
  intros v Hv'. rewrite Hv in Hv'. injection Hv' as <-.
  exists rs. split_and!; try done.
  intros r' Hr'. destruct (decide (r' = r)) as [-> | Hd].
  - eexists. by eapply lookup_insert_self.
  - destruct (Hrs r' Hr') as [ld' Hld']. exists ld'.
    by rewrite list_lookup_insert_ne.
Qed.

(** Every transition of a Port or an Obs, returning or raising, keeps the
    block in place with a well-formed layer list. *)
Lemma layer_block_step self s st data res s' :
  layer_block s self st →
  layers_ok s (info st) →
  parse_next parse_float self data s = (res, s') →
  ∃ st', layer_block s' self st' ∧ layers_ok s' (info st').
Proof.
  intros Hb Hok. rewrite (parse_next_layer_block _ _ _ _ Hb). intros Hp.
  destruct Hb as [Hs | Hs];
    destruct (Port_step_layers_ok _ _ _ _ _ _ _ Hs eq_refl Hok Hp)
      as (i' & Hs' & Hok');
    exists (mkStmt (type st) (name st) i'); (split; [|exact Hok']);
    [left | right]; exact Hs'.
Qed.

(** A well-formed, present layer list meets what [RECT] relies on. *)
Lemma layers_ok_last s st v :
  layers_ok s (info st) →
  info st !! "LAYER" = Some v →
  ∃ (rs : list loc) r ld,
    v = VList (VRef <$> rs) ∧ last rs = Some r ∧ NoDup rs
    ∧ s !! r = Some (OLayerDef ld).
Proof.
  intros Hok Hv. destruct (Hok v Hv) as (rs & -> & Hnil & Hnd & Hrs).
  destruct (last rs) as [r|] eqn:Hlast; [|by apply last_None in Hlast].
  destruct (Hrs r) as [ld Hld]; [by eapply last_Some_elem_of|].
  by exists rs, r, ld.
Qed.

(** C7. With [float] reading ["0.0"], ["1.0"] and ["2.0"] as [z], [o] and
    [t]: the dispatcher turns [MACRO M1] into a new Macro named ["M1"]; that
    Macro returns 0 on [CLASS CORE], [ORIGIN 0.0 0.0] and
    [SIZE 1.0 BY 2.0], storing ["CORE"], (z, z) and (o, t), and returns 1
    on [END M1].  Fed through the driving loop, the five lines leave the
    dispatcher as the only active context and exactly one completed macro,
    whose info holds ["CLASS"], ["ORIGIN"] and ["SIZE"] and nothing else
    (no ["PIN"] list, no ["OBS"]); the store holds no other object. *)
Theorem parse_single_macro (z o t : F) :
  parse_float "0.0" = Some z →
  parse_float "1.0" = Some o →
  parse_float "2.0" = Some t →
  let i1 : gmap string (value F) := <["CLASS" := VStr "CORE"]> ∅ in
  let i2 := <["ORIGIN" := VTuple [VFloat z; VFloat z]]> i1 in
  let i3 := <["SIZE" := VTuple [VFloat o; VFloat t]]> i2 in
  let M i : store F := [OStatement; OMacro (mkStmt "MACRO" "M1" i)] in
  parse_next parse_float 0 ["MACRO"; "M1"] [OStatement] = (inr (RObj 1), M ∅)
  ∧ parse_next parse_float 1 ["CLASS"; "CORE"] (M ∅) = (inr (RInt 0), M i1)
  ∧ parse_next parse_float 1 ["ORIGIN"; "0.0"; "0.0"] (M i1) = (inr (RInt 0), M i2)
  ∧ parse_next parse_float 1 ["SIZE"; "1.0"; "BY"; "2.0"] (M i2) = (inr (RInt 0), M i3)
  ∧ parse_next parse_float 1 ["END"; "M1"] (M i3) = (inr (RInt 1), M i3)
  ∧ parse parse_float
      [ ["MACRO"; "M1"]; ["CLASS"; "CORE"]; ["ORIGIN"; "0.0"; "0.0"];
        ["SIZE"; "1.0"; "BY"; "2.0"]; ["END"; "M1"] ] []
    = (inr (mkDriver [0%nat] [1%nat] false), M i3)
  ∧ i3 !! "CLASS" = Some (VStr "CORE")
  ∧ i3 !! "ORIGIN" = Some (VTuple [VFloat z; VFloat z])
  ∧ i3 !! "SIZE" = Some (VTuple [VFloat o; VFloat t])
  ∧ i3 !! "PIN" = None
  ∧ i3 !! "OBS" = None
  ∧ dom i3 = {["CLASS"; "ORIGIN"; "SIZE"]}.
Proof.
  intros Hz Ho Ht i1 i2 i3 M.
  split_and!;
    unfold parse, drive, feed, parse_next, Statement_parse_next,
      Macro_parse_next, Macro, is_Macro; by py_run.
Qed.

End Properties.

(** * Concrete runs

    The statements above at explicit stores and lines, with [sample_float]
    for [float]. *)

Lemma unknown_keyword_ignored_witness :
  let s : store PrimFloat.float := [OStatement; OMacro (mkStmt "MACRO" "M1" ∅)] in
  ("PROPERTY" ∉ keywords (OMacro (mkStmt (F:=PrimFloat.float) "MACRO" "M1" ∅)))
  ∧ parse_next sample_float 1 ["PROPERTY"; "LEQ1"; "1"] s = (inr (RInt 0), s).
Proof.
  intros s.
  assert ("PROPERTY" ∉ keywords (OMacro (mkStmt (F:=PrimFloat.float) "MACRO" "M1" ∅)))
    as Hk by (apply (bool_decide_unpack _); vm_compute; exact I).
  split; [exact Hk|].
  exact (proj1 (unknown_keyword_ignored sample_float 1 s _ "PROPERTY" ["LEQ1"; "1"]
                  eq_refl I Hk)).
Defined.

Lemma bare_END_raises_IndexError_witness :
  let s : store PrimFloat.float := [OStatement; OMacro (mkStmt "MACRO" "M1" ∅)] in
  named_block s 1 (mkStmt "MACRO" "M1" ∅)
  ∧ parse_next sample_float 1 ["END"] s = (inl IndexError, s).
Proof.
  intros s.
  assert (named_block s 1 (mkStmt "MACRO" "M1" ∅)) as Hb by (left; reflexivity).
  split; [exact Hb|].
  exact (proj1 (bare_END_raises_IndexError sample_float 1 s _ Hb)).
Defined.

Lemma END_name_checked_witness :
  let s : store PrimFloat.float := [OStatement; OMacro (mkStmt "MACRO" "M1" ∅)] in
  parse_next sample_float 1 ["END"; "M1"] s = (inr (RInt 1), s)
  ∧ parse_next sample_float 1 ["END"; "M2"] s = (inr (RInt (-1)), s).
Proof.
  intros s.
  assert (named_block s 1 (mkStmt "MACRO" "M1" ∅)) as Hb by (left; reflexivity).
  split.
  - apply (END_name_checked sample_float 1 s _ "M1" [] Hb). reflexivity.
  - apply (END_name_checked sample_float 1 s _ "M2" [] Hb). discriminate.
Defined.

Lemma USE_stores_into_DIRECTION_witness :
  let s : store PrimFloat.float :=
    [OPin (mkStmt "PIN" "A" (<["DIRECTION" := VStr "INPUT"]> ∅))] in
  parse_next sample_float 0 ["USE"; "SIGNAL"] s
  = (inr (RInt 0), [OPin (mkStmt "PIN" "A" (<["DIRECTION" := VStr "SIGNAL"]> ∅))]).
Proof.
  intros s.
  rewrite (proj1 (USE_stores_into_DIRECTION sample_float 0 s
                    (mkStmt "PIN" "A" (<["DIRECTION" := VStr "INPUT"]> ∅))
                    "SIGNAL" [] eq_refl)).
  reflexivity.
Defined.

Lemma SIZE_reads_tokens_1_and_3_witness :
  let s : store PrimFloat.float := [OMacro (mkStmt "MACRO" "M1" ∅)] in
  parse_next sample_float 0 ["SIZE"; "1.0"; "BY"; "2.0"] s
  = (inr (RInt 0),
     [OMacro (mkStmt "MACRO" "M1" (<["SIZE" := VTuple [VFloat 1%float; VFloat 2%float]]> ∅))]).
Proof.
  intros s.
  exact (SIZE_reads_tokens_1_and_3 sample_float 0 s (mkStmt "MACRO" "M1" ∅)
           "1.0" "BY" "2.0" [] 1%float 2%float eq_refl eq_refl eq_refl).
Defined.

Lemma malformed_numeric_raises_ValueError_witness :
  let s : store PrimFloat.float := [OMacro (mkStmt "MACRO" "M1" ∅)] in
  sample_float "abc" = None
  ∧ parse_next sample_float 0 ["ORIGIN"; "0.0"; "abc"] s = (inl ValueError, s)
  ∧ parse_next sample_float 0 ["SIZE"; "abc"; "BY"] s = (inl ValueError, s)
  ∧ parse_next sample_float 0 ["SIZE"; "1.0"; "BY"; "abc"; ";"] s
    = (inl ValueError, s).
Proof.
  intros s.
  assert (2%nat ∈ numeric_indices "ORIGIN") as H2
    by (apply (bool_decide_unpack _); vm_compute; exact I).
  assert (1%nat ∈ numeric_indices "SIZE") as H1
    by (apply (bool_decide_unpack _); vm_compute; exact I).
  assert (3%nat ∈ numeric_indices "SIZE") as H3
    by (apply (bool_decide_unpack _); vm_compute; exact I).
  split_and!.
  - reflexivity.
  - exact (proj1 (malformed_numeric_raises_ValueError sample_float 0 s _
                    ["ORIGIN"; "0.0"; "abc"] "ORIGIN" "abc" 2
                    eq_refl eq_refl H2 eq_refl eq_refl)).
  - exact (proj1 (malformed_numeric_raises_ValueError sample_float 0 s _
                    ["SIZE"; "abc"; "BY"] "SIZE" "abc" 1
                    eq_refl eq_refl H1 eq_refl eq_refl)).
  - exact (proj1 (malformed_numeric_raises_ValueError sample_float 0 s _
                    ["SIZE"; "1.0"; "BY"; "abc"; ";"] "SIZE" "abc" 3
                    eq_refl eq_refl H3 eq_refl eq_refl)).
Defined.

(** C5, as the claim states it, fails: on [ORIGIN 0.0 abc] a new Macro
    returns nothing, so no error is reported through the contract; the
    [ValueError] of [float] leaves the transition. *)
Lemma malformed_numeric_counterexample :
  let s : store PrimFloat.float := [OMacro (mkStmt "MACRO" "M1" ∅)] in
  Macro "M1" [] = (inr 0%nat, s)
  ∧ parse_next sample_float 0 ["ORIGIN"; "0.0"; "abc"] s = (inl ValueError, s)
  ∧ ¬ reports_error (parse_next sample_float 0 ["ORIGIN"; "0.0"; "abc"] s).
Proof.
  intros s. split_and!; [reflexivity.. |].
  intros (r & s' & E & _). discriminate E.
Qed.

Lemma RECT_without_LAYER_raises_KeyError_witness :
  let s : store PrimFloat.float := [OPort (mkStmt "PORT" EmptyString ∅)] in
  layer_block s 0 (mkStmt "PORT" EmptyString ∅)
  ∧ parse_next sample_float 0 ["RECT"; "0"; "0"; "1"; "1"] s = (inl KeyError, s).
Proof.
  intros s.
  assert (layer_block s 0 (mkStmt "PORT" EmptyString ∅)) as Hb by (left; reflexivity).
  split; [exact Hb|].
  exact (proj1 (RECT_without_LAYER_raises_KeyError sample_float 0 s _
                  ["0"; "0"; "1"; "1"] Hb eq_refl)).
Defined.

(** C1, as the claim states it, fails: on [RECT 0 0 1 1] a new Port returns
    nothing, so no error is reported through the contract; the [KeyError]
    of the dictionary lookup leaves the transition. *)
Lemma RECT_without_LAYER_counterexample :
  let s : store PrimFloat.float := [OPort (mkStmt "PORT" EmptyString ∅)] in
  Port [] = (inr 0%nat, s)
  ∧ parse_next sample_float 0 ["RECT"; "0"; "0"; "1"; "1"] s = (inl KeyError, s)
  ∧ ¬ reports_error (parse_next sample_float 0 ["RECT"; "0"; "0"; "1"; "1"] s).
Proof.
  intros s. split_and!; [reflexivity.. |].
  intros (r & s' & E & _). discriminate E.
Qed.

Lemma parse_single_macro_witness :
  parse sample_float
    [ ["MACRO"; "M1"]; ["CLASS"; "CORE"]; ["ORIGIN"; "0.0"; "0.0"];
      ["SIZE"; "1.0"; "BY"; "2.0"]; ["END"; "M1"] ] []
  = (inr (mkDriver [0%nat] [1%nat] false),
     [OStatement;
      OMacro (mkStmt "MACRO" "M1"
                (<["SIZE" := VTuple [VFloat 1%float; VFloat 2%float]]>
                   (<["ORIGIN" := VTuple [VFloat 0%float; VFloat 0%float]]>
                      (<["CLASS" := VStr "CORE"]> ∅))))]).
Proof.
  apply (parse_single_macro sample_float 0%float 1%float 2%float
           eq_refl eq_refl eq_refl).
Defined.

Lemma RECT_appends_to_last_layer_witness :
  let port := mkStmt (F:=PrimFloat.float) "PORT" EmptyString
                (<["LAYER" := VList [VRef 1%nat; VRef 2%nat]]> ∅) in
  let s : store PrimFloat.float :=
    [OPort port; OLayerDef (mkLayerDef "LayerDef" "metal1" []);
     OLayerDef (mkLayerDef "LayerDef" "metal2" [])] in
  parse_next sample_float 0 ["RECT"; "0"; "0"; "1"; "1"] s
  = (inr (RInt 0),
     [OPort port; OLayerDef (mkLayerDef "LayerDef" "metal1" []);
      OLayerDef (mkLayerDef "LayerDef" "metal2" [mkRect [("0", "0"); ("1", "1")]])]).
Proof.
  intros port s.
  assert (NoDup [1%nat; 2%nat]) as Hnd
    by (apply (bool_decide_unpack _); vm_compute; exact I).
  exact (proj1 (RECT_appends_to_last_layer sample_float 0 s port [1%nat; 2%nat] 2%nat
                  (mkLayerDef "LayerDef" "metal2" []) "0" "0" "1" "1" []
                  (or_introl eq_refl) eq_refl eq_refl Hnd eq_refl)).
Defined.

Lemma OBS_overwrites_obstruction_witness :
  let s : store PrimFloat.float :=
    [OMacro (mkStmt "MACRO" "M1" (<["OBS" := VRef 1%nat]> ∅));
     OObs (mkStmt "OBS" EmptyString (<["LAYER" := VList [VRef 2%nat]]> ∅));
     OLayerDef (mkLayerDef "LayerDef" "metal1" [])] in
  parse_next sample_float 0 ["OBS"] s
  = (inr (RObj 3),
     [OMacro (mkStmt "MACRO" "M1" (<["OBS" := VRef 3%nat]> ∅));
      OObs (mkStmt "OBS" EmptyString (<["LAYER" := VList [VRef 2%nat]]> ∅));
      OLayerDef (mkLayerDef "LayerDef" "metal1" []);
      OObs (mkStmt "OBS" EmptyString ∅)]).
Proof.
  intros s.
  rewrite (proj1 (OBS_overwrites_obstruction sample_float 0 s
                    (mkStmt "MACRO" "M1" (<["OBS" := VRef 1%nat]> ∅)) [] eq_refl)).
  reflexivity.
Defined.

(** The nested pin and port of the spec's P2, run through the driving
    loop. *)
Example parse_nested_pin_port :
  parse sample_float
    [ ["MACRO"; "M1"]; ["PIN"; "A"]; ["DIRECTION"; "INPUT"]; ["PORT"];
      ["LAYER"; "metal1"]; ["RECT"; "0"; "0"; "1"; "1"]; ["END"];
      ["END"; "A"]; ["END"; "M1"] ] []
  = (inr (mkDriver [0%nat] [1%nat] false),
     [OStatement;
      OMacro (mkStmt "MACRO" "M1" (<["PIN" := VList [VRef 2%nat]]> ∅));
      OPin (mkStmt "PIN" "A"
              (<["PORT" := VRef 3%nat]> (<["DIRECTION" := VStr "INPUT"]> ∅)));
      OPort (mkStmt "PORT" EmptyString (<["LAYER" := VList [VRef 4%nat]]> ∅));
      OLayerDef (mkLayerDef "LayerDef" "metal1" [mkRect [("0", "0"); ("1", "1")]])]).
Proof. reflexivity. Qed.

(** * Further properties of the transitions *)

Ltac py_unfold :=
  unfold parse_next, Statement_parse_next, Macro_parse_next, Pin_parse_next,
    Port_parse_next, Obs_parse_next, append_item, subscript_last,
    call_add_rect, add_rect, append_shape, Macro, Pin, Port, Obs, LayerDef.

(** Splits on the first test the computation in the goal is stuck on. *)
Ltac py_case :=
  match goal with
  | |- context [bool_decide (is_Some ?x)] =>
      destruct x eqn:?;
      [ rewrite bool_decide_true by eauto
      | rewrite bool_decide_false by (intros [? ?]; done) ]
  | |- context [match ?x with _ => _ end] =>
      lazymatch x with
      | context [match _ with _ => _ end] => fail
      | _ => destruct x eqn:?
      end
  end.

Ltac py_cases := py_unfold; repeat (py_run; py_unfold; try py_case).

Section MoreProperties.

Context {F : Type} (parse_float : string → option F).

Implicit Types (s : store F) (st : stmt F) (o : obj F) (self : loc).
Implicit Types (data rest : list string) (v : value F).

Lemma obj_le_refl o : obj_le o o.
Proof. destruct o; cbn; auto. Qed.

Lemma obj_le_trans o1 o2 o3 : obj_le o1 o2 → obj_le o2 o3 → obj_le o1 o3.
Proof.
  destruct o1, o2, o3; cbn; try done;
    intros (-> & -> & H1) (-> & -> & H2); split_and!; auto;
    by etrans.
Qed.

Lemma obj_le_with_info o st (k : string) v :
  stmt_of o = Some st → obj_le o (with_info o (<[k := v]> (info st))).
Proof.
  destruct o; cbn; intros [= <-]; split_and!; try done;
    intros k' Hk'; (destruct (decide (k = k')) as [<- | Hne];
      [rewrite lookup_insert_eq; eauto | by rewrite lookup_insert_ne]).
Qed.

Lemma grows_refl s : grows s s.
Proof. intros l o Hl. exists o. split; [done | apply obj_le_refl]. Qed.

Lemma grows_trans s1 s2 s3 : grows s1 s2 → grows s2 s3 → grows s1 s3.
Proof.
  intros H1 H2 l o Hl. destruct (H1 l o Hl) as (o2 & Hl2 & Hle2).
  destruct (H2 l o2 Hl2) as (o3 & Hl3 & Hle3).
  exists o3. split; [done | by eapply obj_le_trans].
Qed.

Lemma grows_alloc s o' : grows s (s ++ [o']).
Proof.
  intros l o Hl. exists o. split; [by apply lookup_app_l_Some | apply obj_le_refl].
Qed.

Lemma grows_insert s (l : loc) o o' :
  s !! l = Some o → obj_le o o' → grows s (<[l := o']> s).
Proof.
  intros Hl Hle l' o1 Hl'. destruct (decide (l = l')) as [<- | Hne].
  - exists o'. split; [by eapply lookup_insert_self | congruence].
  - exists o1. split; [by rewrite list_lookup_insert_ne | apply obj_le_refl].
Qed.

Lemma grows_insert_alloc s (l : loc) o o' new :
  s !! l = Some o → obj_le o o' → grows s (<[l := o']> (s ++ [new])).
Proof.
  intros Hl Hle. eapply grows_trans; [apply (grows_alloc s new)|].
  eapply grows_insert; [by apply lookup_app_l_Some | done].
Qed.

Lemma obj_le_add_shape (l : layerdef) (rect : Rect) :
  obj_le (OLayerDef (F:=F) l)
    (OLayerDef (mkLayerDef (l_type l) (l_name l) (shapes l ++ [rect]))).
Proof. cbn. split_and!; [done | done | by apply prefix_app_r]. Qed.

Ltac solve_obj_le :=
  first
    [ apply obj_le_add_shape
    | match goal with
      | |- obj_le ?o _ => exact (obj_le_with_info o _ _ _ eq_refl)
      end ].

Ltac solve_grows :=
  first
    [ apply grows_refl
    | apply grows_alloc
    | eapply grows_insert; [eassumption | solve_obj_le]
    | eapply grows_insert_alloc; [eassumption | solve_obj_le] ].

(** One call: at most one object is added, and what was there grows. *)
Lemma grows_parse_next self data s res s' :
  parse_next parse_float self data s = (res, s') →
  grows s s' ∧ (List.length s ≤ List.length s' ≤ S (List.length s))%nat.
Proof.
  py_cases.
  all: intros [= <- <-].
  all: rewrite ?length_insert, ?length_app; cbn [List.length].
  all: (split; [solve_grows | lia]).
Qed.

Lemma obj_le_class o o' : obj_le o o' → class_of o' = class_of o.
Proof. destruct o, o'; cbn; done. Qed.

Lemma grows_class s s' (r : loc) o (c : klass) :
  grows s s' → s !! r = Some o → class_of o = c →
  ∃ o', s' !! r = Some o' ∧ class_of o' = c.
Proof.
  intros Hg Hr Hc. destruct (Hg r o Hr) as (o' & Hr' & Hle).
  exists o'. split; [done|]. by rewrite (obj_le_class _ _ Hle).
Qed.

Lemma is_ref_to_mono c s s' v : grows s s' → is_ref_to c s v → is_ref_to c s' v.
Proof.
  intros Hg (r & o & -> & Hr & Hc).
  destruct (grows_class _ _ _ _ _ Hg Hr Hc) as (o' & Hr' & Hc').
  by exists r, o'.
Qed.

Lemma is_refs_to_mono c s s' v : grows s s' → is_refs_to c s v → is_refs_to c s' v.
Proof.
  intros Hg (rs & -> & Hnil & Hnd & Hrs). exists rs. split_and!; try done.
  intros r Hr. destruct (Hrs r Hr) as (o & Ho & Hc).
  by eapply grows_class.
Qed.

Lemma macro_field_mono s s' (k : string) v :
  grows s s' → macro_field s k v → macro_field s' k v.
Proof.
  unfold macro_field. intros Hg H.
  destruct H as [H | [H | [H | [[Hk H] | [Hk H]]]]]; auto.
  - right; right; right; left. split; [done | by eapply is_refs_to_mono].
  - right; right; right; right. split; [done | by eapply is_ref_to_mono].
Qed.

Lemma pin_field_mono s s' (k : string) v :
  grows s s' → pin_field s k v → pin_field s' k v.
Proof.
  unfold pin_field. intros Hg [H | [Hk H]]; auto.
  right. split; [done | by eapply is_ref_to_mono].
Qed.

Lemma layer_field_mono s s' (k : string) v :
  grows s s' → layer_field s k v → layer_field s' k v.
Proof.
  unfold layer_field. intros Hg [Hk H]. split; [done | by eapply is_refs_to_mono].
Qed.

Lemma obj_ok_mono s s' o : grows s s' → obj_ok s o → obj_ok s' o.
Proof.
  intros Hg. destruct o; cbn; try done.
  - intros [Ht Hf]. split; [done|]. intros k v Hk.
    eapply macro_field_mono; [done | by apply Hf].
  - intros [Ht Hf]. split; [done|]. intros k v Hk.
    eapply pin_field_mono; [done | by apply Hf].
  - intros (Ht & Hn & Hf). split_and!; try done. intros k v Hk.
    eapply layer_field_mono; [done | by apply Hf].
  - intros (Ht & Hn & Hf). split_and!; try done. intros k v Hk.
    eapply layer_field_mono; [done | by apply Hf].
Qed.

Lemma store_ok_change s s' :
  store_ok s → grows s s' →
  (∀ (l : loc) o', s' !! l = Some o' → s !! l = Some o' ∨ obj_ok s' o') →
  store_ok s'.
Proof.
  intros Hok Hg Hnew l o' Hl. destruct (Hnew l o' Hl) as [Hold | Hn]; [|done].
  eapply obj_ok_mono; [done | by eapply Hok].
Qed.

Lemma lookup_insert_old_or_new s (self l : loc) (X o' : obj F) :
  <[self := X]> s !! l = Some o' → s !! l = Some o' ∨ o' = X.
Proof.
  destruct (decide (self = l)) as [<- | Hne].
  - intros Hl. right.
    destruct (decide (self < List.length s)%nat).
    + rewrite list_lookup_insert_eq in Hl by done. congruence.
    + rewrite list_insert_ge in Hl by lia. apply lookup_lt_Some in Hl. lia.
  - rewrite list_lookup_insert_ne by done. auto.
Qed.

Lemma lookup_snoc_old_or_new s (l : loc) (new o' : obj F) :
  (s ++ [new]) !! l = Some o' → s !! l = Some o' ∨ (l = List.length s ∧ o' = new).
Proof.
  intros Hl. apply lookup_app_Some in Hl as [Hl | [Hge Hl]]; [auto|].
  right. apply list_lookup_singleton_Some in Hl as [Hz ->]. split; [lia | done].
Qed.

Lemma fields_ok_insert (P P' : string → value F → Prop) st (t n k : string) v :
  fields_ok P st → (∀ k v, P k v → P' k v) → P' k v →
  fields_ok P' (mkStmt t n (<[k := v]> (info st))).
Proof.
  intros Hf Hm Hv k' v'. cbn. destruct (decide (k = k')) as [<- | Hne].
  - rewrite lookup_insert_eq. by intros [= <-].
  - rewrite lookup_insert_ne by done. intros Hk'. by apply Hm, Hf.
Qed.

Lemma fields_ok_empty (P : string → value F → Prop) (t n : string) :
  fields_ok P (mkStmt t n ∅).
Proof. intros k v. cbn. by rewrite lookup_empty. Qed.

(** The list of references after an [append] of a new object. *)
Lemma is_refs_to_snoc c s s' (l : list (value F)) :
  l = [] ∨ is_refs_to c s (VList l) →
  grows s s' →
  (∃ o, s' !! List.length s = Some o ∧ class_of o = c) →
  is_refs_to c s' (VList (l ++ [VRef (List.length s)])).
Proof.
  intros Hl Hg Hnew. destruct Hl as [-> | (rs & [= ->] & Hnil & Hnd & Hrs)].
  - exists [List.length s]. split_and!; [done | done | apply NoDup_singleton |].
    by intros r ->%list_elem_of_singleton.
  - exists (rs ++ [List.length s]). split_and!.
    + by rewrite fmap_app.
    + by destruct rs.
    + apply NoDup_app. split_and!; [done | | apply NoDup_singleton].
      intros r Hr ->%list_elem_of_singleton.
      destruct (Hrs _ Hr) as (o & Ho%lookup_lt_Some & _). lia.
    + intros r [Hr | ->%list_elem_of_singleton]%elem_of_app; [|done].
      destruct (Hrs r Hr) as (o & Ho & Hc). by eapply grows_class.
Qed.

Lemma lookup_insert_alloc_new s self o (X new : obj F) :
  s !! self = Some o → <[self := X]> (s ++ [new]) !! List.length s = Some new.
Proof.
  intros Hs%lookup_lt_Some. rewrite list_lookup_insert_ne by lia.
  apply lookup_alloc_new.
Qed.

Lemma macro_field_PIN s v : macro_field s "PIN" v → is_refs_to KPin s v.
Proof.
  intros [[[?|?] _] | [[[?|?] _] | [[[?|?] _] | [[_ H] | [? _]]]]]; done.
Qed.

Lemma layer_field_LAYER s v : layer_field s "LAYER" v → is_refs_to KLayerDef s v.
Proof. by intros [_ H]. Qed.

Lemma macro_field_str s (k x : string) :
  k = "CLASS" ∨ k = "SITE" → macro_field s k (VStr x).
Proof. intros Hk. left. split; [done | by exists x]. Qed.

Lemma macro_field_pair s (k : string) (x y : F) :
  k = "ORIGIN" ∨ k = "SIZE" → macro_field s k (VTuple [VFloat x; VFloat y]).
Proof. intros Hk. right; left. split; [done | by exists x, y]. Qed.

Lemma macro_field_strs s (k : string) (l : list string) :
  k = "FOREIGN" ∨ k = "SYMMETRY" → macro_field s k (VList (VStr <$> l)).
Proof. intros Hk. right; right; left. split; [done | by exists l]. Qed.

Lemma macro_field_pins s v : is_refs_to KPin s v → macro_field s "PIN" v.
Proof. intros H. right; right; right; left. done. Qed.

Lemma macro_field_obs s v : is_ref_to KObs s v → macro_field s "OBS" v.
Proof. intros H. right; right; right; right. done. Qed.

Lemma pin_field_str s (k x : string) :
  k = "DIRECTION" ∨ k = "SHAPE" → pin_field s k (VStr x).
Proof. intros Hk. left. split; [done | by exists x]. Qed.

Lemma pin_field_port s v : is_ref_to KPort s v → pin_field s "PORT" v.
Proof. intros H. by right. Qed.

(** The object found after an update or an allocation is an old one or
    the one just written. *)
Ltac old_or_new Hq :=
  first
    [ apply lookup_insert_old_or_new in Hq as [Hq | ->];
      [ first
          [ by left
          | apply lookup_snoc_old_or_new in Hq as [Hq | [-> ->]];
            [by left | right] ]
      | right ]
    | apply lookup_snoc_old_or_new in Hq as [Hq | [-> ->]];
      [by left | right] ].

Ltac new_ref :=
  eexists; split; [eapply lookup_insert_alloc_new; eassumption | done].

Ltac solve_field Hf Hg :=
  first
    [ apply macro_field_str; by auto
    | apply macro_field_pair; by auto
    | apply macro_field_strs; by auto
    | apply pin_field_str; by auto
    | match goal with
      | |- macro_field _ "PIN" (VList [?x]) =>
          apply macro_field_pins, (is_refs_to_snoc KPin _ _ []);
          [by left | exact Hg | new_ref]
      | |- macro_field _ "PIN" (VList (?l ++ _)) =>
          apply macro_field_pins, is_refs_to_snoc;
          [right; by apply macro_field_PIN, Hf | exact Hg | new_ref]
      | |- layer_field _ "LAYER" (VList [?x]) =>
          split; [done|]; apply (is_refs_to_snoc KLayerDef _ _ []);
          [by left | exact Hg | new_ref]
      | |- layer_field _ "LAYER" (VList (?l ++ _)) =>
          split; [done|]; apply is_refs_to_snoc;
          [right; by apply layer_field_LAYER, Hf | exact Hg | new_ref]
      | |- macro_field _ "OBS" _ =>
          apply macro_field_obs; eexists _, _; split_and!;
          [done | eapply lookup_insert_alloc_new; eassumption | done]
      | |- pin_field _ "PORT" _ =>
          apply pin_field_port; eexists _, _; split_and!;
          [done | eapply lookup_insert_alloc_new; eassumption | done]
      end ].

Ltac solve_obj_ok Hok Hf Hg mono :=
  cbn; split_and?; try done;
  first
    [ apply fields_ok_empty
    | eapply fields_ok_insert;
      [ exact Hf | intros ? ?; apply mono, Hg | solve_field Hf Hg ]
    | match goal with
      | H : _ !! _ = Some (OLayerDef ?l) |- l_type ?l = _ => exact (Hok _ _ H)
      end ].

(** [store_ok] is kept by every call. *)
Lemma store_ok_step self data s res s' :
  store_ok s →
  parse_next parse_float self data s = (res, s') →
  store_ok s'.
Proof.
  intros Hok Hp. destruct (grows_parse_next _ _ _ _ _ Hp) as [Hg _].
  apply (store_ok_change s s' Hok Hg). revert Hp Hg.
  unfold parse_next. destruct (s !! self) as [o|] eqn:Hs.
  2:{ intros [= <- <-]. auto. }
  pose proof (Hok _ _ Hs) as Hobj.
  destruct o; cbn in Hobj.
  - py_cases; intros [= <- <-] Hg q o' Hq; auto.
    old_or_new Hq. cbn. split; [done | apply fields_ok_empty].
  - destruct Hobj as [Ht Hf].
    py_cases; intros [= <- <-] Hg q o' Hq; auto; old_or_new Hq;
      solve_obj_ok Hok Hf Hg macro_field_mono.
  - destruct Hobj as [Ht Hf].
    py_cases; intros [= <- <-] Hg q o' Hq; auto; old_or_new Hq;
      solve_obj_ok Hok Hf Hg pin_field_mono.
  - destruct Hobj as (Ht & Hn & Hf).
    py_cases; intros [= <- <-] Hg q o' Hq; auto; old_or_new Hq;
      solve_obj_ok Hok Hf Hg layer_field_mono.
  - destruct Hobj as (Ht & Hn & Hf).
    py_cases; intros [= <- <-] Hg q o' Hq; auto; old_or_new Hq;
      solve_obj_ok Hok Hf Hg layer_field_mono.
  - intros [= <- <-]. auto.
Qed.

Ltac eqb_subst :=
  repeat match goal with
  | H : String.eqb _ _ = true |- _ => apply String.eqb_eq in H; subst
  | H : String.eqb _ _ = false |- _ => clear H
  end.

(** A store that is [store_ok] rules out the branches in which an entry
    has not the shape its key calls for. *)
Ltac refs_contra Hf :=
  match goal with
  | H : info _ !! "PIN" = Some _ |- _ =>
      apply Hf, macro_field_PIN in H; destruct H as (? & ? & _); discriminate
  | H : info _ !! "LAYER" = Some _ |- _ =>
      let rs := fresh "rs" in
      let Hv := fresh "Hv" in
      let Hrs := fresh "Hrs" in
      apply Hf, layer_field_LAYER in H;
      destruct H as (rs & Hv & ? & _ & Hrs);
      first
        [ discriminate Hv
        | injection Hv as ->;
          match goal with
          | Hl : last (VRef <$> rs) = _ |- _ =>
              let Hl' := fresh "Hl" in
              rewrite fmap_last in Hl;
              destruct (last rs) as [?|] eqn:Hl'; cbn in Hl; simplify_eq;
              first
                [ by apply last_None in Hl'
                | destruct (Hrs _ (last_Some_elem_of _ _ Hl')) as (? & ? & ?);
                  simplify_eq; done ]
          end ]
  end.

Ltac short_line :=
  match goal with
  | H : ?data !! _ = None |- (List.length ?data < 5)%nat =>
      apply lookup_ge_None in H; lia
  end.

Ltac empty_line :=
  match goal with
  | H : ?data !! 0%nat = None |- ?data = [] => by destruct data
  end.

Ltac solve_exn :=
  split; [done|];
  first
    [ left; split_and!;
      [ done | short_line
      | first [ left; empty_line
              | right; eexists; split; [done|];
                first [ left; set_solver | right; done ] ] ]
    | right; left; split_and!;
      [ done | done | eexists; split; [first [by left | by right] | done] ]
    | right; right; split_and!; [done | done | by auto] ].

(** X1. On a store built by util.py, a call on a context that raises
    leaves the store exactly as it was, and raises one of three
    exceptions: [IndexError], only on a line of fewer than five tokens
    that is empty or starts with a keyword reading an argument;
    [KeyError], only on a [RECT] in a Port or Obs without ["LAYER"] entry;
    [ValueError], only on an [ORIGIN] or [SIZE] of a Macro.  No
    [AttributeError] or [TypeError] is ever raised. *)
Theorem exceptions_characterised self data s o (e : exn) s' :
  store_ok s →
  s !! self = Some o →
  is_context o →
  parse_next parse_float self data s = (inl e, s') →
  s' = s
  ∧ ((e = IndexError ∧ (List.length data < 5)%nat
      ∧ (data = [] ∨ ∃ kw, data !! 0%nat = Some kw
                          ∧ (kw ∈ needs_argument o ∨ kw = "RECT")))
     ∨ (e = KeyError ∧ data !! 0%nat = Some "RECT"
        ∧ ∃ st, layer_block s self st ∧ info st !! "LAYER" = None)
     ∨ (e = ValueError ∧ class_of o = KMacro
        ∧ (data !! 0%nat = Some "ORIGIN" ∨ data !! 0%nat = Some "SIZE"))).
Proof.
  intros Hok Hs Hc. pose proof (Hok _ _ Hs) as Hobj.
  unfold parse_next. rewrite Hs.
  destruct o; cbn in Hobj, Hc; try done.
  - clear Hobj. py_cases; intros ?; simplify_eq; eqb_subst; solve_exn.
  - destruct Hobj as [Ht Hf].
    py_cases; intros ?; simplify_eq; eqb_subst;
      try solve [refs_contra Hf]; solve_exn.
  - clear Hobj. py_cases; intros ?; simplify_eq; eqb_subst; solve_exn.
  - destruct Hobj as (Ht & Hn & Hf).
    py_cases; intros ?; simplify_eq; eqb_subst;
      try solve [refs_contra Hf]; solve_exn.
  - destruct Hobj as (Ht & Hn & Hf).
    py_cases; intros ?; simplify_eq; eqb_subst;
      try solve [refs_contra Hf]; solve_exn.
Qed.

(** X2. After any number of calls, on whatever objects and lines, the
    store has only grown: no object is removed or moved, each keeps its
    class, type and name, no key of an [info] is lost, and the shapes of a
    layer are extended at the end only. *)
Theorem steps_append_only s s' :
  steps parse_float s s' →
  grows s s' ∧ (List.length s ≤ List.length s')%nat.
Proof.
  induction 1 as [s | s self data res s1 s2 Hp _ [IHg IHl]].
  - split; [apply grows_refl | lia].
  - destruct (grows_parse_next _ _ _ _ _ Hp) as [Hg Hl].
    split; [by eapply grows_trans | lia].
Qed.

(** X3. The shape of the data is an invariant: from a store in which
    every object has the type tag of its class and only entries of its
    class, of the right kind, in [info] (string, pair of floats, list of
    strings, list of distinct Pins or LayerDefs, one Obs, one Port), any
    number of calls leads to such a store again. *)
Theorem steps_store_ok s s' :
  store_ok s →
  steps parse_float s s' →
  store_ok s'.
Proof.
  intros Hok Hsteps. induction Hsteps as [s | s self data res s1 s2 Hp _ IH].
  - done.
  - apply IH. by eapply store_ok_step.
Qed.

Ltac eqb_props :=
  repeat match goal with
  | H : String.eqb _ _ = true |- _ => apply String.eqb_eq in H; subst
  | H : String.eqb _ _ = false |- _ => apply String.eqb_neq in H
  end.

Ltac new_at_end Hs :=
  first
    [ apply lookup_alloc_new
    | eapply lookup_insert_alloc_new; exact Hs ].

Ltac solve_ret Hs :=
  first
    [ by left
    | right; left; split_and!;
      [ done | done | done | intros ? [?|?]; by simplify_eq ]
    | right; right; left; split_and!;
      [ done | done | done
      | eexists _, _; split_and!; [first [by left | by right] | done | done] ]
    | right; right; right; split; [done|]; eexists; split_and!;
      [ new_at_end Hs
      | rewrite ?length_insert, ?length_app; cbn; lia
      | first
          [ left; split_and!; [done | done | by eexists]
          | right; left; split_and!; [done | done | by eexists]
          | right; right; left; by split_and!
          | right; right; right; by split_and! ] ] ].

(** X4. What a call returns, and when.  It returns 0, or 1 on an [END]
    line (with the block's own name as token 1 when the block is a Macro
    or a Pin), or -1 on an [END] line of a Macro or Pin whose token 1 is
    another name, or a new object: the object is the one just appended to
    the store, empty, and it is a Macro for [MACRO n] at the dispatcher, a
    Pin for [PIN n] and an Obs for [OBS] in a Macro, a Port for [PORT] in a
    Pin.  With 1 and -1 the store is unchanged.  A Port or an Obs never
    returns -1 and never returns an object. *)
Theorem returns_characterised self data s o (r : ret) s' :
  s !! self = Some o →
  parse_next parse_float self data s = (inr r, s') →
  r = RInt 0
  ∨ (r = RInt 1 ∧ s' = s ∧ data !! 0%nat = Some "END"
     ∧ ∀ st, named_block s self st → data !! 1%nat = Some (name st))
  ∨ (r = RInt (-1) ∧ s' = s ∧ data !! 0%nat = Some "END"
     ∧ ∃ st (m : string),
         named_block s self st ∧ data !! 1%nat = Some m ∧ m ≠ name st)
  ∨ (r = RObj (List.length s)
     ∧ ∃ new, s' !! List.length s = Some new
         ∧ List.length s' = S (List.length s)
         ∧ ((o = OStatement ∧ data !! 0%nat = Some "MACRO"
             ∧ ∃ n, data !! 1%nat = Some n ∧ new = OMacro (mkStmt "MACRO" n ∅))
            ∨ (class_of o = KMacro ∧ data !! 0%nat = Some "PIN"
               ∧ ∃ n, data !! 1%nat = Some n ∧ new = OPin (mkStmt "PIN" n ∅))
            ∨ (class_of o = KMacro ∧ data !! 0%nat = Some "OBS"
               ∧ new = OObs (mkStmt "OBS" EmptyString ∅))
            ∨ (class_of o = KPin ∧ data !! 0%nat = Some "PORT"
               ∧ new = OPort (mkStmt "PORT" EmptyString ∅)))).
Proof.
  intros Hs. unfold parse_next. rewrite Hs.
  destruct o; py_cases; intros ?; simplify_eq; eqb_props; solve_ret Hs.
Qed.

(** X5. A call on [self] leaves every other object of the store as it
    is, with one exception: a [RECT] line in a Port or an Obs changes the
    LayerDef that the last item of its ["LAYER"] entry refers to. *)
Theorem parse_next_frame self data s res s' (l : loc) o :
  parse_next parse_float self data s = (res, s') →
  s !! l = Some o →
  l ≠ self →
  s' !! l = Some o
  ∨ (class_of o = KLayerDef ∧ data !! 0%nat = Some "RECT"
     ∧ ∃ st (ls : list (value F)),
         layer_block s self st
         ∧ (info st !! "LAYER" = Some (VList ls)
            ∨ info st !! "LAYER" = Some (VTuple ls))
         ∧ last ls = Some (VRef l)).
Proof.
  intros Hp Hl Hne. revert Hp. unfold parse_next.
  destruct (s !! self) as [o0|] eqn:Hs; [|intros [= <- <-]; by left].
  destruct o0; py_cases; intros ?; simplify_eq; eqb_props;
    try (left;
         first [ done
               | by rewrite list_lookup_insert_ne
               | by apply lookup_app_l_Some
               | rewrite list_lookup_insert_ne by done;
                 by apply lookup_app_l_Some ]).
  all: match goal with
       | |- <[?r := _]> _ !! _ = _ ∨ _ =>
           destruct (decide (l = r)) as [-> | Hd];
           [ right; simplify_eq; split_and!; [done | done |];
             eexists _, _; split_and!;
             [first [by left | by right] | first [by left | by right] | done]
           | left; by rewrite list_lookup_insert_ne ]
       end.
Qed.

Ltac cases_elem H :=
  repeat (apply elem_of_cons in H as [-> | H]);
  try (by apply elem_of_nil in H).

(** X6. A line too short for its keyword: in every context the empty
    token vector, and a keyword that reads its argument ([MACRO] at the
    dispatcher; [CLASS], [ORIGIN], [SIZE], [SITE], [PIN], [END] in a
    Macro; [DIRECTION], [USE], [SHAPE], [END] in a Pin; [LAYER] in a Port
    or an Obs) standing alone, raise [IndexError] and change nothing. *)
Theorem line_without_argument_raises_IndexError self s o :
  s !! self = Some o →
  is_context o →
  parse_next parse_float self [] s = (inl IndexError, s)
  ∧ ∀ kw : string, kw ∈ needs_argument o →
      parse_next parse_float self [kw] s = (inl IndexError, s).
Proof.
  intros Hs Hc. unfold parse_next. rewrite Hs.
  destruct o; cbn in Hc; try done;
    (split; [reflexivity | intros kw Hk; cbn in Hk; cases_elem Hk; reflexivity]).
Qed.

(** X7. The dispatcher, a Port and an Obs close on any line whose first
    token is [END]: 1 is returned and the store is unchanged, whatever
    tokens follow (a name after [END] is not compared with anything). *)
Theorem END_closes_without_check self s o rest :
  s !! self = Some o →
  class_of o ∈ [KStatement; KPort; KObs] →
  parse_next parse_float self ("END" :: rest) s = (inr (RInt 1), s).
Proof.
  intros Hs Hc. unfold parse_next. rewrite Hs.
  destruct o; try reflexivity; exfalso; cbn in Hc;
    repeat (apply elem_of_cons in Hc as [Hc' | Hc]; [discriminate|]);
    by apply elem_of_nil in Hc.
Qed.

(** X8. In a Macro, [PIN n] creates a new empty Pin named [n], appends the
    reference to it at the end of the ["PIN"] list (creating the list on
    the first [PIN] line) and returns it: the pins already listed stay, in
    their order, and [n] is not compared with their names. *)
Theorem PIN_appends_pin self s st (n : string) rest (pins : list (value F)) :
  s !! self = Some (OMacro st) →
  (info st !! "PIN" = None ∧ pins = []) ∨ info st !! "PIN" = Some (VList pins) →
  let new_pin := List.length s in
  let st' := mkStmt (type st) (name st)
               (<["PIN" := VList (pins ++ [VRef new_pin])]> (info st)) in
  parse_next parse_float self ("PIN" :: n :: rest) s
  = (inr (RObj new_pin),
     <[self := OMacro st']> (s ++ [OPin (mkStmt "PIN" n ∅)])).
Proof.
  intros Hs [[Hp ->] | Hp] new_pin st'; unfold parse_next; rewrite Hs;
    py_unfold; py_run; py_unfold; by py_run.
Qed.

(** X9. In a Port or an Obs, [LAYER n] creates a new LayerDef named [n]
    without shapes, appends the reference to it at the end of the
    ["LAYER"] list (creating the list on the first [LAYER] line) and
    returns 0: the layer is no context of its own, and the layers already
    listed stay, in their order. *)
Theorem LAYER_appends_layer self s o st (n : string) rest (layers : list (value F)) :
  s !! self = Some o →
  layer_block s self st →
  (info st !! "LAYER" = None ∧ layers = [])
  ∨ info st !! "LAYER" = Some (VList layers) →
  let new_layer := List.length s in
  let i' := <["LAYER" := VList (layers ++ [VRef new_layer])]> (info st) in
  parse_next parse_float self ("LAYER" :: n :: rest) s
  = (inr (RInt 0),
     <[self := with_info o i']> (s ++ [OLayerDef (mkLayerDef "LayerDef" n [])])).
Proof.
  intros Ho Hb Hl new_layer i'.
  rewrite (parse_next_layer_block _ _ _ _ _ Hb).
  destruct Hb as [Hs | Hs]; destruct Hl as [[Hp ->] | Hp];
    rewrite Hs in Ho; injection Ho as <-;
    py_unfold; py_run; py_unfold; by py_run.
Qed.

(** [RECT] with its four coordinates, when the last item of the layer
    list refers to a LayerDef. *)
Lemma RECT_last_ref self s st (ls : list (value F)) (r : loc) (ld : layerdef)
    (x0 y0 x1 y1 : string) rest :
  layer_block s self st →
  info st !! "LAYER" = Some (VList ls) →
  last ls = Some (VRef r) →
  s !! r = Some (OLayerDef ld) →
  parse_next parse_float self ("RECT" :: x0 :: y0 :: x1 :: y1 :: rest) s
  = (inr (RInt 0),
     <[r := OLayerDef (mkLayerDef (l_type ld) (l_name ld)
                         (shapes ld ++ [mkRect [(x0, y0); (x1, y1)]]))]> s).
Proof.
  intros Hb Hl Hlast Hr. rewrite (parse_next_layer_block _ _ _ _ _ Hb).
  destruct Hb as [Hs | Hs]; py_unfold; py_run; py_unfold; by py_run.
Qed.

(** X10. [LAYER] and [RECT] compose: after [LAYER n] in a Port or an Obs,
    a following [RECT x0 y0 x1 y1] returns 0 and puts its rectangle, as
    the only shape so far, into the layer [n] just declared, whatever
    layers were declared before. *)
Theorem LAYER_then_RECT self s o st (n : string) rest (layers : list (value F))
    (x0 y0 x1 y1 : string) rest' :
  s !! self = Some o →
  layer_block s self st →
  (info st !! "LAYER" = None ∧ layers = [])
  ∨ info st !! "LAYER" = Some (VList layers) →
  let new_layer := List.length s in
  let i' := <["LAYER" := VList (layers ++ [VRef new_layer])]> (info st) in
  let s1 := <[self := with_info o i']>
              (s ++ [OLayerDef (mkLayerDef "LayerDef" n [])]) in
  parse_next parse_float self ("LAYER" :: n :: rest) s = (inr (RInt 0), s1)
  ∧ parse_next parse_float self ("RECT" :: x0 :: y0 :: x1 :: y1 :: rest') s1
    = (inr (RInt 0),
       <[new_layer := OLayerDef (mkLayerDef "LayerDef" n
                                   [mkRect [(x0, y0); (x1, y1)]])]> s1).
Proof.
  intros Ho Hb Hl new_layer i' s1. split.
  - rewrite (parse_next_layer_block _ _ _ _ _ Hb).
    destruct Hb as [Hs | Hs]; destruct Hl as [[Hp ->] | Hp];
      rewrite Hs in Ho; injection Ho as <-;
      py_unfold; py_run; py_unfold; by py_run.
  - assert (s1 !! self = Some (with_info o i')) as Hs1.
    { eapply lookup_insert_self. by eapply lookup_alloc_old. }
    assert (layer_block s1 self (mkStmt (type st) (name st) i')) as Hb1.
    { destruct Hb as [Hs | Hs]; rewrite Hs in Ho; injection Ho as <-;
        [left | right]; exact Hs1. }
    apply (RECT_last_ref self s1 _ (layers ++ [VRef new_layer]) new_layer
             (mkLayerDef "LayerDef" n []) x0 y0 x1 y1 rest' Hb1).
    + apply lookup_insert_eq.
    + apply last_snoc.
    + by eapply lookup_insert_alloc_new.
Qed.

(** X11. A [RECT] line with fewer than four coordinates, in a Port or an
    Obs whose last layer exists, raises [IndexError] and adds no shape:
    the store is unchanged. *)
Theorem short_RECT_raises_IndexError self s st (ls : list (value F)) (r : loc)
    (ld : layerdef) rest :
  layer_block s self st →
  info st !! "LAYER" = Some (VList ls) →
  last ls = Some (VRef r) →
  s !! r = Some (OLayerDef ld) →
  (List.length rest < 4)%nat →
  parse_next parse_float self ("RECT" :: rest) s = (inl IndexError, s).
Proof.
  intros Hb Hl Hlast Hr Hlen. rewrite (parse_next_layer_block _ _ _ _ _ Hb).
  destruct rest as [|x0 [|y0 [|x1 [|y1 rest]]]]; cbn in Hlen; try lia;
    destruct Hb as [Hs | Hs]; py_unfold; py_run; py_unfold; by py_run.
Qed.

(** X12. [ORIGIN] and [SIZE] read and convert their tokens one after the
    other.  [ORIGIN t1 t2] with both tokens float literals stores the pair
    (float of [t1], float of [t2]) and returns 0.  On a line that stops
    too early the first fault found decides the exception: with token 1
    no float literal the line [kw t1] raises [ValueError], with token 1 a
    float literal it raises [IndexError], and so does [SIZE t1 t2], which
    lacks token 3.  The macro is unchanged whenever an exception is
    raised. *)
Theorem numeric_line_reads_in_token_order self s st (kw t1 t2 : string) :
  s !! self = Some (OMacro st) →
  kw ∈ ["ORIGIN"; "SIZE"] →
  (parse_float t1 = None →
     parse_next parse_float self [kw; t1] s = (inl ValueError, s))
  ∧ (∀ x, parse_float t1 = Some x →
     parse_next parse_float self [kw; t1] s = (inl IndexError, s)
     ∧ parse_next parse_float self ["SIZE"; t1; t2] s = (inl IndexError, s)
     ∧ ∀ y rest, parse_float t2 = Some y →
         parse_next parse_float self ("ORIGIN" :: t1 :: t2 :: rest) s
         = (inr (RInt 0),
            <[self := OMacro (mkStmt (type st) (name st)
                                (<["ORIGIN" := VTuple [VFloat x; VFloat y]]>
                                   (info st)))]> s)).
Proof.
  intros Hs Hk. unfold parse_next. rewrite Hs.
  split; [intros H1 | intros x H1; split_and!; [| |intros y rest H2]];
    cases_elem Hk; py_unfold; by py_run.
Qed.

(** X13. In a Macro, [FOREIGN] and [SYMMETRY] store the list of all tokens
    after the keyword, in order, and return 0.  The keyword alone stores
    the empty list: unlike the other attribute keywords it raises
    nothing. *)
Theorem FOREIGN_SYMMETRY_store_rest self s st (kw : string) rest :
  s !! self = Some (OMacro st) →
  kw ∈ ["FOREIGN"; "SYMMETRY"] →
  parse_next parse_float self (kw :: rest) s
  = (inr (RInt 0),
     <[self := OMacro (mkStmt (type st) (name st)
                         (<[kw := VList (VStr <$> rest)]> (info st)))]> s)
  ∧ parse_next parse_float self [kw] s
    = (inr (RInt 0),
       <[self := OMacro (mkStmt (type st) (name st)
                           (<[kw := VList []]> (info st)))]> s).
Proof.
  intros Hs Hk. unfold parse_next. rewrite Hs.
  split; cases_elem Hk; py_unfold; by py_run.
Qed.

(** X14. In a Pin, each [PORT] line creates a new empty Port, stores the
    reference to it under the single key ["PORT"], whatever was there (a
    Port of an earlier [PORT] block is no longer referred to by the pin),
    and returns it; the other keys of the pin are as before. *)
Theorem PORT_overwrites_port self s st rest :
  s !! self = Some (OPin st) →
  let new_port := List.length s in
  let st' := mkStmt (type st) (name st) (<["PORT" := VRef new_port]> (info st)) in
  let s' := <[self := OPin st']> (s ++ [OPort (mkStmt "PORT" EmptyString ∅)]) in
  parse_next parse_float self ("PORT" :: rest) s = (inr (RObj new_port), s')
  ∧ s' !! new_port = Some (OPort (mkStmt "PORT" EmptyString ∅))
  ∧ info st' !! "PORT" = Some (VRef new_port)
  ∧ (∀ k : string, k ≠ "PORT" → info st' !! k = info st !! k)
  ∧ (∀ (old : loc) o, s !! old = Some o → old ≠ new_port).
Proof.
  intros Hs new_port st' s'. split_and!.
  - unfold parse_next. rewrite Hs. py_unfold. by py_run.
  - by eapply lookup_insert_alloc_new.
  - apply lookup_insert_eq.
  - intros k Hk. by apply lookup_insert_ne.
  - intros old o Ho%lookup_lt_Some. unfold new_port. lia.
Qed.

(** A line of an attribute keyword that returns writes, under the
    keyword, a value fixed by the line alone, and returns 0. *)
Lemma macro_attribute_effect self s st (kw : string) rest (r : ret) s' :
  s !! self = Some (OMacro st) →
  kw ∈ macro_attributes →
  parse_next parse_float self (kw :: rest) s = (inr r, s') →
  ∃ v, r = RInt 0
       ∧ s' = <[self := OMacro (mkStmt (type st) (name st)
                                  (<[kw := v]> (info st)))]> s
       ∧ ∀ s2 st2, s2 !! self = Some (OMacro st2) →
           parse_next parse_float self (kw :: rest) s2
           = (inr (RInt 0),
              <[self := OMacro (mkStmt (type st2) (name st2)
                                  (<[kw := v]> (info st2)))]> s2).
Proof.
  intros Hs Hk. unfold macro_attributes in Hk. unfold parse_next. rewrite Hs.
  cases_elem Hk; py_cases; intros ?; simplify_eq;
    (eexists; split_and!; [done | done |]);
    intros s2 st2 H2; rewrite H2; py_unfold; by py_run.
Qed.

(** X15. Attribute lines of a Macro with one keyword ([CLASS], [ORIGIN],
    [FOREIGN], [SIZE], [SYMMETRY], [SITE]): the last line wins.  Two such
    lines in a row, both returning, leave the store the second one alone
    would leave; in particular a repeated line changes nothing more. *)
Theorem attribute_last_wins self s st (kw : string) rest1 rest2 (r1 r2 : ret) s1 s2 :
  s !! self = Some (OMacro st) →
  kw ∈ macro_attributes →
  parse_next parse_float self (kw :: rest1) s = (inr r1, s1) →
  parse_next parse_float self (kw :: rest2) s1 = (inr r2, s2) →
  parse_next parse_float self (kw :: rest2) s = (inr r2, s2).
Proof.
  intros Hs Hk H1 H2.
  destruct (macro_attribute_effect _ _ _ _ _ _ _ Hs Hk H1) as (v1 & -> & -> & _).
  pose proof (lookup_insert_self _ _ _
                (OMacro (mkStmt (type st) (name st) (<[kw := v1]> (info st)))) Hs)
    as Hs1.
  destruct (macro_attribute_effect _ _ _ _ _ _ _ Hs1 Hk H2) as (v2 & -> & -> & Hany).
  rewrite (Hany s st Hs). cbn.
  by rewrite list_insert_insert_eq, insert_insert_eq.
Qed.

Lemma string_app_nil_r (a : string) : a +:+ EmptyString = a.
Proof.
  induction a as [|c a IH]; [done|].
  change (String c (a +:+ EmptyString) = String c a). by f_equal.
Qed.

Lemma string_app_assoc (a b c : string) : (a +:+ b) +:+ c = a +:+ (b +:+ c).
Proof.
  induction a as [|x a IH]; [done|].
  change (String x ((a +:+ b) +:+ c) = String x (a +:+ (b +:+ c))). by f_equal.
Qed.

Lemma pin_field_PORT s v : pin_field s "PORT" v → is_ref_to KPort s v.
Proof. intros [[[?|?] _] | [_ H]]; done. Qed.

(** The loop of the renderings over references to LayerDefs. *)
Lemma render_layers_refs s (rs : list loc) (acc : string) :
  (∀ r, r ∈ rs → ∃ ld, s !! r = Some (OLayerDef ld) ∧ l_type ld = "LayerDef") →
  render_layers (VRef <$> rs) acc s
  = (inr (acc +:+ layer_lines (layer_names s rs)), s).
Proof.
  revert acc. induction rs as [|r rs IH]; intros acc Hrs.
  - cbn. by rewrite string_app_nil_r.
  - destruct (Hrs r) as (ld & Hr & Ht); [by left|].
    cbn [fmap list_fmap render_layers]. unfold attr_type, attr_name.
    py_run. rewrite IH by (intros r' Hr'; apply Hrs; by right).
    unfold layer_lines, layer_names, layer_line.
    by rewrite Ht, string_app_assoc.
Qed.

Lemma store_ok_layers s st :
  store_ok s →
  fields_ok (layer_field s) st →
  info st !! "LAYER" = None
  ∨ ∃ rs : list loc, info st !! "LAYER" = Some (VList (VRef <$> rs))
      ∧ ∀ r, r ∈ rs → ∃ ld, s !! r = Some (OLayerDef ld) ∧ l_type ld = "LayerDef".
Proof.
  intros Hok Hf. destruct (info st !! "LAYER") as [v|] eqn:Hv; [right | by left].
  destruct (layer_field_LAYER _ _ (Hf _ _ Hv)) as (rs & -> & _ & _ & Hrs).
  exists rs. split; [done|]. intros r Hr.
  destruct (Hrs r Hr) as (o & Ho & Hc). destruct o; try done.
  eexists. split; [done|]. exact (Hok _ _ Ho).
Qed.

(** X17. [Pin.__str__] on a store built by util.py changes nothing and
    either raises [KeyError], exactly when the pin has no ["PORT"] entry
    or its port has no ["LAYER"] entry, or returns one line
    ["LayerDef <name>"] per layer of the port, in the order of the
    ["LAYER"] list.  Rectangles are not rendered. *)
Theorem Pin_str_outcome self s st (res : exn + string) s' :
  store_ok s →
  s !! self = Some (OPin st) →
  Pin_str self s = (res, s') →
  s' = s
  ∧ ((res = inl KeyError
      ∧ (info st !! "PORT" = None
         ∨ ∃ (p : loc) pst, info st !! "PORT" = Some (VRef p)
             ∧ s !! p = Some (OPort pst) ∧ info pst !! "LAYER" = None))
     ∨ ∃ (p : loc) pst (rs : list loc),
         info st !! "PORT" = Some (VRef p) ∧ s !! p = Some (OPort pst)
         ∧ info pst !! "LAYER" = Some (VList (VRef <$> rs))
         ∧ res = inr (layer_lines (layer_names s rs))).
Proof.
  intros Hok Hs. destruct (Hok _ _ Hs) as [_ Hf]. unfold Pin_str.
  destruct (info st !! "PORT") as [v|] eqn:Hv.
  2:{ py_run. intros [= <- <-]. split; [done|]. left. split; [done | by left]. }
  destruct (pin_field_PORT _ _ (Hf _ _ Hv)) as (p & o & -> & Hp & Hc).
  destruct o as [|?|?|pst|?|?]; try done.
  destruct (Hok _ _ Hp) as (_ & _ & Hfp).
  destruct (store_ok_layers s pst Hok Hfp) as [Hl | (rs & Hl & Hrs)].
  - unfold attr_info. py_run. intros [= <- <-]. split; [done|]. left.
    split; [done|]. right. by exists p, pst.
  - unfold attr_info, iterate. py_run.
    rewrite (render_layers_refs s rs EmptyString Hrs). cbn.
    intros [= <- <-]. split; [done|]. right. by exists p, pst, rs.
Qed.

(** X18. [Obs.__str__] on a store built by util.py changes nothing and
    either raises [KeyError], exactly when the obstruction has no
    ["LAYER"] entry, or returns one line ["LayerDef <name>"] per layer, in
    the order of the ["LAYER"] list. *)
Theorem Obs_str_outcome self s st (res : exn + string) s' :
  store_ok s →
  s !! self = Some (OObs st) →
  Obs_str self s = (res, s') →
  s' = s
  ∧ ((res = inl KeyError ∧ info st !! "LAYER" = None)
     ∨ ∃ rs : list loc,
         info st !! "LAYER" = Some (VList (VRef <$> rs))
         ∧ res = inr (layer_lines (layer_names s rs))).
Proof.
  intros Hok Hs. destruct (Hok _ _ Hs) as (_ & _ & Hf). unfold Obs_str.
  destruct (store_ok_layers s st Hok Hf) as [Hl | (rs & Hl & Hrs)].
  - py_run. intros [= <- <-]. split; [done|]. by left.
  - unfold iterate. py_run.
    rewrite (render_layers_refs s rs EmptyString Hrs). cbn.
    intros [= <- <-]. split; [done|]. right. by exists rs.
Qed.

(** The store a parse starts from. *)
Lemma store_ok_dispatcher : store_ok (F:=F) [OStatement].
Proof. intros [|l] o Hl; cbn in Hl; by simplify_eq. Qed.

End MoreProperties.

(** * Concrete runs of the further properties *)

Lemma exceptions_characterised_witness :
  let s : store PrimFloat.float := [OStatement; OMacro (mkStmt "MACRO" "M1" ∅)] in
  let data := ["SIZE"; "abc"; "BY"; "2.0"] in
  store_ok s
  ∧ parse_next sample_float 1 data s = (inl ValueError, s)
  ∧ (data !! 0%nat = Some "ORIGIN" ∨ data !! 0%nat = Some "SIZE").
Proof.
  intros s data.
  assert (store_ok s) as Hok.
  { exact (store_ok_step sample_float 0 ["MACRO"; "M1"] [OStatement] _ s
             store_ok_dispatcher eq_refl). }
  split_and!; [exact Hok | reflexivity |].
  destruct (exceptions_characterised sample_float 1 data s _ ValueError s
              Hok eq_refl I eq_refl)
    as [_ [(He & _) | [(He & _) | (_ & _ & H)]]]; [discriminate.. | exact H].
Defined.

Lemma steps_append_only_witness :
  let s2 : store PrimFloat.float :=
    [OStatement; OMacro (mkStmt "MACRO" "M1" (<["CLASS" := VStr "CORE"]> ∅))] in
  steps sample_float [OStatement] s2 ∧ grows [OStatement] s2.
Proof.
  intros s2.
  assert (steps sample_float [OStatement] s2) as Hsteps.
  { eapply (steps_call _ _ 0%nat ["MACRO"; "M1"]); [reflexivity|].
    eapply (steps_call _ _ 1%nat ["CLASS"; "CORE"]); [reflexivity|].
    apply steps_refl. }
  split; [exact Hsteps|].
  exact (proj1 (steps_append_only sample_float _ _ Hsteps)).
Defined.

Lemma steps_store_ok_witness :
  let s2 : store PrimFloat.float :=
    [OStatement;
     OMacro (mkStmt "MACRO" "M1" (<["PIN" := VList [VRef 2%nat]]> ∅));
     OPin (mkStmt "PIN" "A" ∅)] in
  steps sample_float [OStatement] s2 ∧ store_ok s2.
Proof.
  intros s2.
  assert (steps sample_float [OStatement] s2) as Hsteps.
  { eapply (steps_call _ _ 0%nat ["MACRO"; "M1"]); [reflexivity|].
    eapply (steps_call _ _ 1%nat ["PIN"; "A"]); [reflexivity|].
    apply steps_refl. }
  split; [exact Hsteps|].
  exact (steps_store_ok sample_float _ _ store_ok_dispatcher Hsteps).
Defined.

Lemma returns_characterised_witness :
  let s : store PrimFloat.float := [OStatement; OMacro (mkStmt "MACRO" "M1" ∅)] in
  parse_next sample_float 1 ["PIN"; "A"] s
  = (inr (RObj 2),
     [OStatement;
      OMacro (mkStmt "MACRO" "M1" (<["PIN" := VList [VRef 2%nat]]> ∅));
      OPin (mkStmt "PIN" "A" ∅)])
  ∧ ["PIN"; "A"] !! 0%nat = Some "PIN".
Proof.
  intros s. split; [reflexivity|].
  destruct (returns_characterised sample_float 1 ["PIN"; "A"] s _ (RObj 2) _
              eq_refl eq_refl)
    as [H | [(H & _) | [(H & _) | (_ & new & _ & _ & Hk)]]]; [discriminate.. |].
  destruct Hk as [(H & _) | [(_ & H & _) | [(_ & H & _) | (H & _)]]];
    first [discriminate | exact H].
Defined.

Lemma parse_next_frame_witness :
  let m2 : obj PrimFloat.float := OMacro (mkStmt "MACRO" "M2" ∅) in
  let s : store PrimFloat.float :=
    [OStatement; OMacro (mkStmt "MACRO" "M1" ∅); m2] in
  (parse_next sample_float 1 ["CLASS"; "CORE"] s).2 !! 2%nat = Some m2.
Proof.
  intros m2 s.
  destruct (parse_next_frame sample_float 1 ["CLASS"; "CORE"] s _ _ 2%nat m2
              eq_refl eq_refl ltac:(discriminate))
    as [H | (H & _)]; [exact H | discriminate].
Defined.

Lemma line_without_argument_raises_IndexError_witness :
  let s : store PrimFloat.float := [OStatement; OMacro (mkStmt "MACRO" "M1" ∅)] in
  parse_next sample_float 1 ["SIZE"] s = (inl IndexError, s)
  ∧ parse_next sample_float 0 ["MACRO"] s = (inl IndexError, s).
Proof.
  intros s. split.
  - apply (line_without_argument_raises_IndexError sample_float 1 s _ eq_refl I).
    apply (bool_decide_unpack _). vm_compute. exact I.
  - apply (line_without_argument_raises_IndexError sample_float 0 s _ eq_refl I).
    apply (bool_decide_unpack _). vm_compute. exact I.
Defined.

Lemma END_closes_without_check_witness :
  let s : store PrimFloat.float := [OPort (mkStmt "PORT" EmptyString ∅)] in
  parse_next sample_float 0 ["END"; "M1"] s = (inr (RInt 1), s).
Proof.
  intros s.
  apply (END_closes_without_check sample_float 0 s _ ["M1"] eq_refl).
  cbn. set_solver.
Defined.

Lemma PIN_appends_pin_witness :
  let s : store PrimFloat.float :=
    [OMacro (mkStmt "MACRO" "M1" (<["PIN" := VList [VRef 1%nat]]> ∅));
     OPin (mkStmt "PIN" "A" ∅)] in
  parse_next sample_float 0 ["PIN"; "A"] s
  = (inr (RObj 2),
     [OMacro (mkStmt "MACRO" "M1" (<["PIN" := VList [VRef 1%nat; VRef 2%nat]]> ∅));
      OPin (mkStmt "PIN" "A" ∅); OPin (mkStmt "PIN" "A" ∅)]).
Proof.
  intros s.
  rewrite (PIN_appends_pin sample_float 0 s
             (mkStmt "MACRO" "M1" (<["PIN" := VList [VRef 1%nat]]> ∅))
             "A" [] [VRef 1%nat] eq_refl (or_intror eq_refl)).
  reflexivity.
Defined.

Lemma LAYER_appends_layer_witness :
  let s : store PrimFloat.float := [OObs (mkStmt "OBS" EmptyString ∅)] in
  parse_next sample_float 0 ["LAYER"; "metal1"] s
  = (inr (RInt 0),
     [OObs (mkStmt "OBS" EmptyString (<["LAYER" := VList [VRef 1%nat]]> ∅));
      OLayerDef (mkLayerDef "LayerDef" "metal1" [])]).
Proof.
  intros s.
  rewrite (LAYER_appends_layer sample_float 0 s _ (mkStmt "OBS" EmptyString ∅)
             "metal1" [] [] eq_refl (or_intror eq_refl)
             (or_introl (conj eq_refl eq_refl))).
  reflexivity.
Defined.

Lemma LAYER_then_RECT_witness :
  let s : store PrimFloat.float :=
    [OPort (mkStmt "PORT" EmptyString (<["LAYER" := VList [VRef 1%nat]]> ∅));
     OLayerDef (mkLayerDef "LayerDef" "metal1" [mkRect [("0", "0"); ("1", "1")]])] in
  let s1 := (parse_next sample_float 0 ["LAYER"; "metal2"] s).2 in
  (parse_next sample_float 0 ["RECT"; "2"; "2"; "3"; "3"] s1).2
  = [OPort (mkStmt "PORT" EmptyString
              (<["LAYER" := VList [VRef 1%nat; VRef 2%nat]]> ∅));
     OLayerDef (mkLayerDef "LayerDef" "metal1" [mkRect [("0", "0"); ("1", "1")]]);
     OLayerDef (mkLayerDef "LayerDef" "metal2" [mkRect [("2", "2"); ("3", "3")]])].
Proof.
  intros s s1.
  destruct (LAYER_then_RECT sample_float 0 s _
              (mkStmt "PORT" EmptyString (<["LAYER" := VList [VRef 1%nat]]> ∅))
              "metal2" [] [VRef 1%nat] "2" "2" "3" "3" []
              eq_refl (or_introl eq_refl) (or_intror eq_refl))
    as [H1 H2].
  unfold s1. rewrite H1. cbn [snd]. rewrite H2. reflexivity.
Defined.

Lemma short_RECT_raises_IndexError_witness :
  let s : store PrimFloat.float :=
    [OPort (mkStmt "PORT" EmptyString (<["LAYER" := VList [VRef 1%nat]]> ∅));
     OLayerDef (mkLayerDef "LayerDef" "metal1" [])] in
  parse_next sample_float 0 ["RECT"; "0"; "0"; "1"] s = (inl IndexError, s).
Proof.
  intros s.
  apply (short_RECT_raises_IndexError sample_float 0 s
           (mkStmt "PORT" EmptyString (<["LAYER" := VList [VRef 1%nat]]> ∅))
           [VRef 1%nat] 1%nat (mkLayerDef "LayerDef" "metal1" [])
           ["0"; "0"; "1"] (or_introl eq_refl) eq_refl eq_refl eq_refl).
  cbn. lia.
Defined.

Lemma numeric_line_reads_in_token_order_witness :
  let s : store PrimFloat.float := [OMacro (mkStmt "MACRO" "M1" ∅)] in
  parse_next sample_float 0 ["ORIGIN"; "abc"] s = (inl ValueError, s)
  ∧ parse_next sample_float 0 ["ORIGIN"; "0.5"] s = (inl IndexError, s).
Proof.
  intros s.
  assert ("ORIGIN" ∈ ["ORIGIN"; "SIZE"]) as Hk
    by (apply (bool_decide_unpack _); vm_compute; exact I).
  split.
  - apply (proj1 (numeric_line_reads_in_token_order sample_float 0 s _ "ORIGIN"
                    "abc" EmptyString eq_refl Hk) eq_refl).
  - apply (proj2 (numeric_line_reads_in_token_order sample_float 0 s _ "ORIGIN"
                    "0.5" EmptyString eq_refl Hk) 0.5%float eq_refl).
Defined.

Lemma FOREIGN_SYMMETRY_store_rest_witness :
  let s : store PrimFloat.float := [OMacro (mkStmt "MACRO" "M1" ∅)] in
  parse_next sample_float 0 ["SYMMETRY"; "X"; "Y"] s
  = (inr (RInt 0),
     [OMacro (mkStmt "MACRO" "M1" (<["SYMMETRY" := VList [VStr "X"; VStr "Y"]]> ∅))]).
Proof.
  intros s.
  assert ("SYMMETRY" ∈ ["FOREIGN"; "SYMMETRY"]) as Hk
    by (apply (bool_decide_unpack _); vm_compute; exact I).
  rewrite (proj1 (FOREIGN_SYMMETRY_store_rest sample_float 0 s _ "SYMMETRY"
                    ["X"; "Y"] eq_refl Hk)).
  reflexivity.
Defined.

Lemma PORT_overwrites_port_witness :
  let s : store PrimFloat.float :=
    [OPin (mkStmt "PIN" "A" (<["PORT" := VRef 1%nat]> ∅));
     OPort (mkStmt "PORT" EmptyString ∅)] in
  parse_next sample_float 0 ["PORT"] s
  = (inr (RObj 2),
     [OPin (mkStmt "PIN" "A" (<["PORT" := VRef 2%nat]> ∅));
      OPort (mkStmt "PORT" EmptyString ∅); OPort (mkStmt "PORT" EmptyString ∅)]).
Proof.
  intros s.
  rewrite (proj1 (PORT_overwrites_port sample_float 0 s
                    (mkStmt "PIN" "A" (<["PORT" := VRef 1%nat]> ∅)) [] eq_refl)).
  reflexivity.
Defined.

Lemma attribute_last_wins_witness :
  let s : store PrimFloat.float := [OMacro (mkStmt "MACRO" "M1" ∅)] in
  let s1 := (parse_next sample_float 0 ["CLASS"; "CORE"] s).2 in
  parse_next sample_float 0 ["CLASS"; "PAD"] s
  = parse_next sample_float 0 ["CLASS"; "PAD"] s1.
Proof.
  intros s s1.
  assert ("CLASS" ∈ macro_attributes) as Hk
    by (apply (bool_decide_unpack _); vm_compute; exact I).
  rewrite (attribute_last_wins sample_float 0 s _ "CLASS" ["CORE"] ["PAD"]
             (RInt 0) (RInt 0) s1
             (parse_next sample_float 0 ["CLASS"; "PAD"] s1).2
             eq_refl Hk eq_refl eq_refl).
  reflexivity.
Defined.

Lemma Pin_str_outcome_witness :
  let s : store PrimFloat.float :=
    (parse sample_float
       [ ["MACRO"; "M1"]; ["PIN"; "A"]; ["PORT"]; ["LAYER"; "metal1"];
         ["RECT"; "0"; "0"; "1"; "1"]; ["LAYER"; "metal2"] ] []).2 in
  store_ok s
  ∧ Pin_str 2 s = (inr (layer_lines ["metal1"; "metal2"]), s)
  ∧ Pin_str 0 [OPin (F:=PrimFloat.float) (mkStmt "PIN" "A" ∅)]
    = (inl KeyError, [OPin (mkStmt "PIN" "A" ∅)]).
Proof.
  intros s.
  assert (store_ok s) as Hok.
  { pose proof (store_ok_step sample_float 0 ["MACRO"; "M1"] _ _ _
                  store_ok_dispatcher eq_refl) as H1.
    pose proof (store_ok_step sample_float 1 ["PIN"; "A"] _ _ _ H1 eq_refl) as H2.
    pose proof (store_ok_step sample_float 2 ["PORT"] _ _ _ H2 eq_refl) as H3.
    pose proof (store_ok_step sample_float 3 ["LAYER"; "metal1"] _ _ _ H3 eq_refl)
      as H4.
    pose proof (store_ok_step sample_float 3 ["RECT"; "0"; "0"; "1"; "1"] _ _ _
                  H4 eq_refl) as H5.
    exact (store_ok_step sample_float 3 ["LAYER"; "metal2"] _ _ _ H5 eq_refl). }
  split_and!; [exact Hok | | reflexivity].
  destruct (Pin_str_outcome 2 s _ _ _ Hok eq_refl eq_refl)
    as [_ [(H & _) | (p & pst & rs & _ & _ & _ & H)]];
    [discriminate | reflexivity].
Defined.

Lemma Obs_str_outcome_witness :
  let s : store PrimFloat.float :=
    (parse sample_float
       [ ["MACRO"; "M1"]; ["OBS"]; ["LAYER"; "metal1"];
         ["RECT"; "0"; "0"; "1"; "1"] ] []).2 in
  store_ok s
  ∧ Obs_str 2 s = (inr (layer_lines ["metal1"]), s)
  ∧ Obs_str 0 [OObs (F:=PrimFloat.float) (mkStmt "OBS" EmptyString ∅)]
    = (inl KeyError, [OObs (mkStmt "OBS" EmptyString ∅)]).
Proof.
  intros s.
  assert (store_ok s) as Hok.
  { pose proof (store_ok_step sample_float 0 ["MACRO"; "M1"] _ _ _
                  store_ok_dispatcher eq_refl) as H1.
    pose proof (store_ok_step sample_float 1 ["OBS"] _ _ _ H1 eq_refl) as H2.
    pose proof (store_ok_step sample_float 2 ["LAYER"; "metal1"] _ _ _ H2 eq_refl)
      as H3.
    exact (store_ok_step sample_float 2 ["RECT"; "0"; "0"; "1"; "1"] _ _ _
             H3 eq_refl). }
  split_and!; [exact Hok | | reflexivity].
  destruct (Obs_str_outcome 2 s _ _ _ Hok eq_refl eq_refl)
    as [_ [(H & _) | (rs & _ & H)]]; [discriminate | reflexivity].
Defined.

(** [Statement.__str__], inherited by Port, on a new Port and on the
    dispatcher itself, which has neither [type] nor [name]. *)
Example Statement_str_samples :
  Statement_str 0 [OPort (F:=PrimFloat.float) (mkStmt "PORT" EmptyString ∅)]
  = (inr "PORT ", [OPort (mkStmt "PORT" EmptyString ∅)])
  ∧ Statement_str 0 [OStatement (F:=PrimFloat.float)]
    = (inl AttributeError, [OStatement]).
Proof. split; reflexivity. Qed.
